(** * optparse: a reentrant command-line option parser

    Shallow embedding of [include/optparse/optparse.h] and the properties
    of its three entry points [optparse], [optparse_long] and
    [optparse_arg].

    Modelling conventions.
    - A C string is a [string] holding the characters before the
      terminator, so it contains no NUL; [char_at s i] reads [s[i]] and
      yields NUL at the terminator.  A [char *] that may be NULL is an
      [option string].
    - [argv] is the list of tokens before the terminating NULL pointer;
      [argv !! i] is [argv[i]], [None] being NULL.
    - [int] fields that index arrays ([optind], [subopt]) are [nat];
      the other [int]s are [Z].  Whether [char] is signed is left to the
      platform: it is the section variable [char_signed].
    - [int *longindex] is an [option Z]: [None] is a NULL pointer,
      [Some v] a slot that currently holds [v]. *)

From Stdlib Require Import ZArith String Ascii Lia.
From stdpp Require Import base list strings.

Local Open Scope string_scope.
Local Open Scope list_scope.
Local Open Scope nat_scope.

(** ** Characters and C strings *)

Definition NUL : ascii := "000"%char.

(** [s[i]]: the character at offset [i], NUL at the terminator. *)
Definition char_at (s : string) (i : nat) : ascii :=
  match String.get i s with
  | Some c => c
  | None => NUL
  end.

(** [s + n]: the string that starts [n] characters into [s]. *)
Fixpoint str_drop (n : nat) (s : string) : string :=
  match n, s with
  | O, _ => s
  | S n', String _ r => str_drop n' r
  | S _, EmptyString => EmptyString
  end.

(** The two-byte array [{c, 0}] read as a C string. *)
Definition str_of_char (c : ascii) : string :=
  if (c =? NUL)%char then EmptyString else String c EmptyString.

(** A character constant such as ['?']: an [int]. *)
Definition char_lit (c : ascii) : Z := Z.of_N (N_of_ascii c).

(** [(char)n] for an [int] in the range of the basic character set. *)
Definition char_of_int (n : Z) : ascii := ascii_of_N (Z.to_N n).

(** ** Parser state and option descriptors *)

Record optparse_t : Type := mk_optparse {
  argv : list string;
  permute : Z;
  optind : nat;
  optopt : Z;
  optarg : option string;
  errmsg : string;
  subopt : nat
}.

Inductive optparse_argtype_t : Type :=
| OPTPARSE_NONE
| OPTPARSE_REQUIRED
| OPTPARSE_OPTIONAL.

Definition argtype_value (t : optparse_argtype_t) : nat :=
  match t with
  | OPTPARSE_NONE => 0
  | OPTPARSE_REQUIRED => 1
  | OPTPARSE_OPTIONAL => 2
  end.

Record optparse_long_t : Type := mk_long {
  longname : option string;
  shortname : Z;
  argtype : optparse_argtype_t
}.

Definition set_argv (o : optparse_t) (v : list string) : optparse_t :=
  mk_optparse v (permute o) (optind o) (optopt o) (optarg o) (errmsg o) (subopt o).
Definition set_permute (o : optparse_t) (v : Z) : optparse_t :=
  mk_optparse (argv o) v (optind o) (optopt o) (optarg o) (errmsg o) (subopt o).
Definition set_optind (o : optparse_t) (v : nat) : optparse_t :=
  mk_optparse (argv o) (permute o) v (optopt o) (optarg o) (errmsg o) (subopt o).
Definition set_optopt (o : optparse_t) (v : Z) : optparse_t :=
  mk_optparse (argv o) (permute o) (optind o) v (optarg o) (errmsg o) (subopt o).
Definition set_optarg (o : optparse_t) (v : option string) : optparse_t :=
  mk_optparse (argv o) (permute o) (optind o) (optopt o) v (errmsg o) (subopt o).
Definition set_errmsg (o : optparse_t) (v : string) : optparse_t :=
  mk_optparse (argv o) (permute o) (optind o) (optopt o) (optarg o) v (subopt o).
Definition set_subopt (o : optparse_t) (v : nat) : optparse_t :=
  mk_optparse (argv o) (permute o) (optind o) (optopt o) (optarg o) (errmsg o) v.

(** ** Error reporting *)

Definition OPTPARSE_MSG_INVALID : string := "invalid option".
Definition OPTPARSE_MSG_MISSING : string := "option requires an argument".
Definition OPTPARSE_MSG_TOOMANY : string := "option takes no arguments".

(** [sizeof(options->errmsg)]. *)
Definition errmsg_size : nat := 64.

(** One copying loop of [optparse__error]: characters of [src] are
    appended to [errmsg] while [src] has some and [p < limit], where [buf]
    is what has been written so far and [p] is its length. *)
Fixpoint buf_copy (limit : nat) (src : string) (buf : string) : string :=
  match src with
  | EmptyString => buf
  | String c rest =>
      if String.length buf <? limit
      then buf_copy limit rest (buf +:+ String c EmptyString)
      else buf
  end.

Definition optparse__error (options : optparse_t) (msg data : string)
  : Z * optparse_t :=
  let sep := " -- '" in
  let buf := buf_copy (errmsg_size - 1) msg EmptyString in
  let buf := buf_copy (errmsg_size - 1) sep buf in
  let buf := buf_copy (errmsg_size - 2) data buf in
  let buf := if String.length buf <? errmsg_size - 1
             then buf +:+ "'" else buf in
  (char_lit "?", set_errmsg options buf).




(** ** Token classification *)

Definition optparse__is_dashdash (arg : option string) : bool :=
  match arg with
  | None => false
  | Some a =>
      (char_at a 0 =? "-")%char && (char_at a 1 =? "-")%char
      && (char_at a 2 =? NUL)%char
  end.

Definition optparse__is_shortopt (arg : option string) : bool :=
  match arg with
  | None => false
  | Some a =>
      (char_at a 0 =? "-")%char && negb (char_at a 1 =? "-")%char
      && negb (char_at a 1 =? NUL)%char
  end.

Definition optparse__is_longopt (arg : option string) : bool :=
  match arg with
  | None => false
  | Some a =>
      (char_at a 0 =? "-")%char && (char_at a 1 =? "-")%char
      && negb (char_at a 2 =? NUL)%char
  end.

(** ** Permutation *)

(** [n] rounds of [argv[i] = argv[i + 1]; ++i]. *)
Fixpoint permute_shift (n i : nat) (a : list string) : list string :=
  match n with
  | O => a
  | S n' =>
      permute_shift n' (S i)
        (match a !! S i with
         | Some t => <[i := t]> a
         | None => a
         end)
  end.

(** Every call passes the index of a token, so [argv[index]] is not NULL;
    the model leaves the array alone otherwise. *)
Definition optparse__permute (options : optparse_t) (index : nat)
  : optparse_t :=
  match argv options !! index with
  | None => options
  | Some nonoption =>
      let a := permute_shift (optind options - 1 - index) index (argv options) in
      set_argv options (<[optind options - 1 := nonoption]> a)
  end.

(** ** Short option specification *)

(** The scanning loop of [optparse__argtype]: the rest of [optstring]
    from the first occurrence of [c], empty when there is none. *)
Fixpoint optstring_seek (optstring : string) (c : ascii) : string :=
  match optstring with
  | EmptyString => EmptyString
  | String d rest =>
      if (c =? d)%char then optstring else optstring_seek rest c
  end.

Definition optparse__argtype (optstring : string) (c : ascii) : Z :=
  if (c =? ":")%char then (-1)%Z
  else
    let p := optstring_seek optstring c in
    if (char_at p 0 =? NUL)%char then (-1)%Z
    else if (char_at p 1 =? ":")%char
         then (if (char_at p 2 =? ":")%char then 2%Z else 1%Z)
         else 0%Z.

(** ** Long option tables

    The source's local variable [option] is [opt] here. *)

(** The source tests the entry at index [i] of the table; the model hands
    it the entry itself.  A table is the list of its entries; the end of
    the list stands for the terminating record as well. *)
Definition optparse_longopts_end (e : optparse_long_t) : bool :=
  match longname e with
  | Some _ => false
  | None => (shortname e =? 0)%Z
  end.

Fixpoint colons (n : nat) : string :=
  match n with
  | O => EmptyString
  | S n' => String ":" (colons n')
  end.

(** The source writes into a local buffer of [96 * 3 + 1] bytes without a
    bound check; the model returns the whole string. *)
Fixpoint optparse__from_long (longopts : list optparse_long_t) : string :=
  match longopts with
  | [] => EmptyString
  | e :: rest =>
      if optparse_longopts_end e then EmptyString
      else
        (if (0 <? shortname e)%Z && (shortname e <? 127)%Z
         then String (char_of_int (shortname e))
                     (colons (argtype_value (argtype e)))
         else EmptyString)
        +:+ optparse__from_long rest
  end.

(** What [optparse__longopts_match] returns once its loop is left with
    [a] and [n] at the given positions. *)
Definition longopts_match_end (a n : string) : bool :=
  (char_at n 0 =? NUL)%char
  && ((char_at a 0 =? NUL)%char || (char_at a 0 =? "=")%char).

Fixpoint longopts_match_loop (a n : string) : bool :=
  match a, n with
  | String ca a', String cn n' =>
      if (ca =? "=")%char then longopts_match_end a n
      else if negb (ca =? cn)%char then false
      else longopts_match_loop a' n'
  | _, _ => longopts_match_end a n
  end.

Definition optparse__longopts_match (longname : option string)
  (opt : string) : bool :=
  match longname with
  | None => false
  | Some n => longopts_match_loop opt n
  end.

Fixpoint optparse__longopts_arg (opt : string) : option string :=
  match opt with
  | EmptyString => None
  | String c rest =>
      if (c =? "=")%char then Some rest else optparse__longopts_arg rest
  end.

(** The search loop of [optparse__long_fallback]; [longindex] is what the
    slot holds when the loop ends without a hit. *)
Fixpoint fallback_search (longopts : list optparse_long_t) (i : nat)
  (code : Z) (longindex : Z) : Z :=
  match longopts with
  | [] => longindex
  | e :: rest =>
      if optparse_longopts_end e then longindex
      else if (shortname e =? code)%Z then Z.of_nat i
      else fallback_search rest (S i) code longindex
  end.

(** ** The specification's lookup of a long option

    Written from the specification's words, to be compared with
    [optparse__longopts_match] and the table scan of [optparse_long]: the
    first entry whose name is all the characters of the token before the
    first ['='], or before its end when there is none. *)

(** The characters of [opt] before the first ['=']. *)
Fixpoint option_key (opt : string) : string :=
  match opt with
  | EmptyString => EmptyString
  | String c rest =>
      if (c =? "=")%char then EmptyString else String c (option_key rest)
  end.

(** The records of a table before its terminator. *)
Fixpoint table_entries (longopts : list optparse_long_t)
  : list optparse_long_t :=
  match longopts with
  | [] => []
  | e :: rest =>
      if optparse_longopts_end e then [] else e :: table_entries rest
  end.

(** The first entry named [key], with its index. *)
Definition first_named (key : string) (entries : list optparse_long_t)
  : option (nat * optparse_long_t) :=
  list_find (fun e => longname e = Some key) entries.

(** A C string has no NUL before its terminator. *)
Fixpoint no_nul (s : string) : bool :=
  match s with
  | EmptyString => true
  | String c rest => negb (c =? NUL)%char && no_nul rest
  end.

(** The long option table of the test suite. *)
Definition kLongopts : list optparse_long_t :=
  [ mk_long (Some "amend") (char_lit "a") OPTPARSE_NONE;
    mk_long (Some "brief") (char_lit "b") OPTPARSE_NONE;
    mk_long (Some "color") (char_lit "c") OPTPARSE_OPTIONAL;
    mk_long (Some "delay") (char_lit "d") OPTPARSE_REQUIRED;
    mk_long (Some "erase") (char_lit "e") OPTPARSE_NONE;
    mk_long (Some "file") (char_lit "f") OPTPARSE_REQUIRED;
    mk_long None 0 OPTPARSE_NONE ].

(** ** Entry points *)

Definition optparse_init (options : optparse_t) (argv : list string)
  : optparse_t :=
  {| argv := argv;
     permute := 1;
     optind := match argv !! 0 with Some _ => 1 | None => 0 end;
     optopt := 0;
     optarg := None;
     errmsg := EmptyString;
     subopt := 0 |}.

Definition optparse_arg (options : optparse_t)
  : option string * optparse_t :=
  let opt := argv options !! optind options in
  let options := set_subopt options 0 in
  match opt with
  | Some _ => (opt, set_optind options (S (optind options)))
  | None => (opt, options)
  end.

(** The first three assignments of [optparse]. *)
Definition optparse_reset (options : optparse_t) : optparse_t :=
  set_optarg (set_optopt (set_errmsg options EmptyString) 0) None.

(** ** Draining the positionals

    [unconsumed_args] of the test suite: [optparse_arg] is called until it
    returns NULL.  One call per remaining token and a last one are enough
    (lemma [unconsumed_args_drop]). *)

Fixpoint unconsumed_args_fuel (fuel : nat) (o : optparse_t) : list string :=
  match fuel with
  | O => []
  | S fuel' =>
      match optparse_arg o with
      | (Some a, o') => a :: unconsumed_args_fuel fuel' o'
      | (None, _) => []
      end
  end.

Definition unconsumed_args (o : optparse_t) : list string :=
  unconsumed_args_fuel (S (length (argv o) - optind o)) o.

(** [interleave l1 l2 l]: [l] is made of the elements of [l1] and of [l2],
    each list in its own order. *)
Inductive interleave {A : Type} : list A -> list A -> list A -> Prop :=
| interleave_nil : interleave [] [] []
| interleave_l x l1 l2 l :
    interleave l1 l2 l -> interleave (x :: l1) l2 (x :: l)
| interleave_r x l1 l2 l :
    interleave l1 l2 l -> interleave l1 (x :: l2) (x :: l).

(** From state [o] to state [o']: the tokens before the cursor of [o] are
    where they were; of the tokens [merged ++ rest] from that cursor on,
    [consumed] now lie between the old cursor and the new one and
    [skipped ++ rest] from the new cursor on, and [merged] interleaves
    [consumed] and [skipped]: either group is in the order it had in the
    array of [o]. *)
Definition stable_partition (o o' : optparse_t) : Prop :=
  exists consumed skipped merged rest,
    drop (optind o) (argv o) = merged ++ rest
    /\ interleave consumed skipped merged
    /\ argv o' = take (optind o) (argv o) ++ consumed ++ skipped ++ rest
    /\ optind o' = optind o + length consumed.

(** From state [o] to state [o']: the tokens from the cursor of [o'] on
    are tokens from the cursor of [o] on, in the order they had there;
    the tokens before the cursor of [o] are where they were; the array
    holds the same tokens; the cursor has not moved back. *)
Definition remaining_kept (o o' : optparse_t) : Prop :=
  drop (optind o') (argv o') `sublist_of` drop (optind o) (argv o)
  /\ take (optind o) (argv o') = take (optind o) (argv o)
  /\ argv o' ≡ₚ argv o
  /\ optind o <= optind o'.

(** A scanner that steps over the tokens satisfying [skip] stops at the
    head of [x]: it does not step over it. *)
Definition stops_at (skip : string -> bool) (o : optparse_t)
  (x : list string) : Prop :=
  permute o = 0%Z \/ x = [] \/ exists t x', x = t :: x' /\ skip t = false.

(** The state after the calls [scan p] for [p] in [ps], in this order. *)
Definition run_scan {P A : Type} (scan : P -> optparse_t -> A * optparse_t)
  (ps : list P) (o : optparse_t) : optparse_t :=
  foldl (fun o p => (scan p o).2) o ps.

(** What a run of calls keeps true of the state, [o0] being where it
    started: [stable_partition] and that the tokens stepped over so far
    are non-options. *)
Definition stable_inv (skip : string -> bool) (o0 o : optparse_t) : Prop :=
  exists consumed skipped merged rest,
    drop (optind o0) (argv o0) = merged ++ rest
    /\ interleave consumed skipped merged
    /\ argv o = take (optind o0) (argv o0) ++ consumed ++ skipped ++ rest
    /\ optind o = optind o0 + length consumed
    /\ Forall (fun t => skip t = true) skipped
    /\ permute o = permute o0.

(** The tokens [optparse] steps over when permutation is on. *)
Definition nonoption_short (tok : string) : bool :=
  negb (optparse__is_dashdash (Some tok))
  && negb (optparse__is_shortopt (Some tok)).

(** The tokens [optparse_long] steps over when permutation is on. *)
Definition nonoption_long (tok : string) : bool :=
  negb (optparse__is_dashdash (Some tok))
  && negb (optparse__is_shortopt (Some tok))
  && negb (optparse__is_longopt (Some tok)).

Section Platform.

(** Whether plain [char] is a signed type. *)
Variable char_signed : bool.

(** The value of a [char] converted to [int]. *)
Definition char_to_int (c : ascii) : Z :=
  let n := Z.of_N (N_of_ascii c) in
  if (128 <=? n)%Z && char_signed then (n - 256)%Z else n.

(** The part of [optparse] after the token has been found to be a short
    option cluster: [tok] is [argv[optind]]. *)
Definition optparse_cluster (options : optparse_t) (optstring : string)
  (tok : string) : Z * optparse_t :=
  let opt := str_drop (subopt options + 1) tok in
  let c := char_at opt 0 in
  let options := set_optopt options (char_to_int c) in
  let type := optparse__argtype optstring c in
  let next := argv options !! (optind options + 1) in
  match type with
  | (-1)%Z =>
      let str := str_of_char c in
      let options := set_optind options (S (optind options)) in
      let options := set_subopt options 0 in
      optparse__error options OPTPARSE_MSG_INVALID str
  | 0%Z =>
      if negb (char_at opt 1 =? NUL)%char
      then (char_to_int c, set_subopt options (S (subopt options)))
      else
        let options := set_subopt options 0 in
        (char_to_int c, set_optind options (S (optind options)))
  | 1%Z =>
      let options := set_subopt options 0 in
      let options := set_optind options (S (optind options)) in
      if negb (char_at opt 1 =? NUL)%char
      then (char_to_int c, set_optarg options (Some (str_drop 1 opt)))
      else
        match next with
        | Some _ =>
            let options := set_optarg options next in
            (char_to_int c, set_optind options (S (optind options)))
        | None =>
            let str := str_of_char c in
            let options := set_optarg options None in
            optparse__error options OPTPARSE_MSG_MISSING str
        end
  | 2%Z =>
      let options := set_subopt options 0 in
      let options := set_optind options (S (optind options)) in
      (char_to_int c,
       set_optarg options
         (if negb (char_at opt 1 =? NUL)%char
          then Some (str_drop 1 opt) else None))
  | _ => (0%Z, options)
  end.

(** [optparse] calls itself once for each non-option it steps over;
    [fuel] bounds the depth of these calls, and [None] means that it ran
    out. *)
Fixpoint optparse_fuel (fuel : nat) (options : optparse_t)
  (optstring : string) : option (Z * optparse_t) :=
  let options := optparse_reset options in
  let opt := argv options !! optind options in
  match opt with
  | None => Some ((-1)%Z, options)
  | Some tok =>
      if optparse__is_dashdash opt
      then Some ((-1)%Z, set_optind options (S (optind options)))
      else if negb (optparse__is_shortopt opt)
      then
        if negb (permute options =? 0)%Z
        then
          match fuel with
          | O => None
          | S fuel' =>
              let index := optind options in
              let options := set_optind options (S index) in
              match optparse_fuel fuel' options optstring with
              | None => None
              | Some (r, options) =>
                  let options := optparse__permute options index in
                  Some (r, set_optind options (optind options - 1))
              end
          end
        else Some ((-1)%Z, options)
      else Some (optparse_cluster options optstring tok)
  end.

(** One recursive call per remaining token is enough (lemma
    [optparse_fuel_enough]), so the default is never taken. *)
Definition optparse (options : optparse_t) (optstring : string)
  : Z * optparse_t :=
  match optparse_fuel (length (argv options) - optind options)
          options optstring with
  | Some r => r
  | None => ((-1)%Z, options)
  end.

Definition optparse__long_fallback (options : optparse_t)
  (longopts : list optparse_long_t) (longindex : option Z)
  : Z * optparse_t * option Z :=
  let optstring := optparse__from_long longopts in
  let '(result, options) := optparse options optstring in
  let longindex :=
    match longindex with
    | None => None
    | Some _ =>
        Some (if negb (result =? -1)%Z
              then fallback_search longopts 0 (optopt options) (-1)%Z
              else (-1)%Z)
    end in
  (result, options, longindex).

(** The body of the table scan of [optparse_long] for the entry [e], of
    index [i], whose name matches; [opt] is the token after its two
    dashes.  [name] is not NULL there, as it matched. *)
Definition optparse_long_entry (e : optparse_long_t) (i : nat)
  (options : optparse_t) (opt : string) (longindex : option Z)
  : Z * optparse_t * option Z :=
  let name := longname e in
  let longindex :=
    match longindex with
    | None => None
    | Some _ => Some (Z.of_nat i)
    end in
  let options := set_optopt options (shortname e) in
  let arg := optparse__longopts_arg opt in
  match argtype e, arg with
  | OPTPARSE_NONE, Some _ =>
      (optparse__error options OPTPARSE_MSG_TOOMANY
         (default EmptyString name), longindex)
  | _, Some _ => (optopt options, set_optarg options arg, longindex)
  | OPTPARSE_REQUIRED, None =>
      let options := set_optarg options (argv options !! optind options) in
      match optarg options with
      | None =>
          (optparse__error options OPTPARSE_MSG_MISSING
             (default EmptyString name), longindex)
      | Some _ =>
          (optopt options, set_optind options (S (optind options)), longindex)
      end
  | _, None => (optopt options, options, longindex)
  end.

(** The table scan of [optparse_long], entered with entry [i] at the head
    of [longopts]. *)
Fixpoint optparse_long_scan (longopts : list optparse_long_t) (i : nat)
  (options : optparse_t) (opt : string) (longindex : option Z)
  : Z * optparse_t * option Z :=
  match longopts with
  | [] => (optparse__error options OPTPARSE_MSG_INVALID opt, longindex)
  | e :: rest =>
      if optparse_longopts_end e
      then (optparse__error options OPTPARSE_MSG_INVALID opt, longindex)
      else if negb (optparse__longopts_match (longname e) opt)
      then optparse_long_scan rest (S i) options opt longindex
      else optparse_long_entry e i options opt longindex
  end.

Fixpoint optparse_long_fuel (fuel : nat) (options : optparse_t)
  (longopts : list optparse_long_t) (longindex : option Z)
  : option (Z * optparse_t * option Z) :=
  let opt := argv options !! optind options in
  match opt with
  | None => Some ((-1)%Z, options, longindex)
  | Some tok =>
      if optparse__is_dashdash opt
      then Some ((-1)%Z, set_optind options (S (optind options)), longindex)
      else if optparse__is_shortopt opt
      then Some (optparse__long_fallback options longopts longindex)
      else if negb (optparse__is_longopt opt)
      then
        if negb (permute options =? 0)%Z
        then
          match fuel with
          | O => None
          | S fuel' =>
              let index := optind options in
              let options := set_optind options (S index) in
              match optparse_long_fuel fuel' options longopts longindex with
              | None => None
              | Some (r, options, longindex) =>
                  let options := optparse__permute options index in
                  Some (r, set_optind options (optind options - 1), longindex)
              end
          end
        else Some ((-1)%Z, options, longindex)
      else
        let options := optparse_reset options in
        let opt := str_drop 2 tok in
        let options := set_optind options (S (optind options)) in
        Some (optparse_long_scan longopts 0 options opt longindex)
  end.

Definition optparse_long (options : optparse_t)
  (longopts : list optparse_long_t) (longindex : option Z)
  : Z * optparse_t * option Z :=
  match optparse_long_fuel (length (argv options) - optind options)
          options longopts longindex with
  | Some r => r
  | None => ((-1)%Z, options, longindex)
  end.

(** What [optparse] does at a token it does not step over: its body
    without the recursive branch. *)
Definition optparse_here (optstring : string) (o : optparse_t)
  : Z * optparse_t :=
  let o1 := optparse_reset o in
  match argv o !! optind o with
  | None => ((-1)%Z, o1)
  | Some tok =>
      if optparse__is_dashdash (Some tok)
      then ((-1)%Z, set_optind o1 (S (optind o)))
      else if negb (optparse__is_shortopt (Some tok))
      then ((-1)%Z, o1)
      else optparse_cluster o1 optstring tok
  end.

(** The same for [optparse_long]. *)
Definition optparse_long_here (longopts : list optparse_long_t)
  (longindex : option Z) (o : optparse_t) : Z * optparse_t * option Z :=
  match argv o !! optind o with
  | None => ((-1)%Z, o, longindex)
  | Some tok =>
      if optparse__is_dashdash (Some tok)
      then ((-1)%Z, set_optind o (S (optind o)), longindex)
      else if optparse__is_shortopt (Some tok)
      then optparse__long_fallback o longopts longindex
      else if negb (optparse__is_longopt (Some tok))
      then ((-1)%Z, o, longindex)
      else
        optparse_long_scan longopts 0
          (set_optind (optparse_reset o) (S (optind o)))
          (str_drop 2 tok) longindex
  end.

(** The two scanners in the shape of section [Skipping]: the arguments
    first, the state last, and the state returned last. *)
Definition scan_short (optstring : string) (o : optparse_t)
  : Z * optparse_t :=
  optparse o optstring.

Definition scan_long (p : list optparse_long_t * option Z)
  (o : optparse_t) : (Z * option Z) * optparse_t :=
  let '(r, o', li) := optparse_long o p.1 p.2 in ((r, li), o').

Definition here_long (p : list optparse_long_t * option Z)
  (o : optparse_t) : (Z * option Z) * optparse_t :=
  let '(r, o', li) := optparse_long_here p.1 p.2 o in ((r, li), o').

(** ** Sequences of calls and the order of the tokens *)

(** One call of a scanner, with its arguments. *)
Inductive call : Type :=
| NextShort (optstring : string)
| NextLong (longopts : list optparse_long_t) (longindex : option Z).

Definition is_short (c : call) : bool :=
  match c with NextShort _ => true | NextLong _ _ => false end.

Definition is_long (c : call) : bool :=
  match c with NextShort _ => false | NextLong _ _ => true end.

(** The state a call leaves. *)
Definition do_call (c : call) (o : optparse_t) : optparse_t :=
  match c with
  | NextShort optstring => (optparse o optstring).2
  | NextLong longopts longindex => (optparse_long o longopts longindex).1.2
  end.

Definition run_calls (cs : list call) (o : optparse_t) : optparse_t :=
  foldl (fun o c => do_call c o) o cs.

(** The first entry whose short equivalent is [code], with its index. *)
Definition first_short (code : Z) (entries : list optparse_long_t)
  : option (nat * optparse_long_t) :=
  list_find (fun e => shortname e = code) entries.

(** A state before [optparse_init]. *)
Definition blank : optparse_t :=
  {| argv := []; permute := 0; optind := 0; optopt := 0;
     optarg := None; errmsg := EmptyString; subopt := 0 |}.

(** All the calls of a sequence are calls of one scanner. *)
Definition same_scanner (cs : list call) : bool :=
  forallb is_short cs || forallb is_long cs.

(** ** The messages of the entry points *)




(** ** Further notions for the properties *)

(** [n] calls of [optparse] in a row, as in the loops of the tests, with
    what they return. *)
Fixpoint optparse_loop (n : nat) (o : optparse_t) (optstring : string)
  : list Z * optparse_t :=
  match n with
  | O => ([], o)
  | S n' =>
      let '(r, o1) := optparse o optstring in
      let '(rs, o2) := optparse_loop n' o1 optstring in
      (r :: rs, o2)
  end.

(** [n] calls of [optparse_long] in a row, the slot handed on from one
    call to the next, with what they return. *)
Fixpoint optparse_long_loop (n : nat) (o : optparse_t)
  (longopts : list optparse_long_t) (longindex : option Z)
  : list Z * optparse_t :=
  match n with
  | O => ([], o)
  | S n' =>
      let '(r, o1, li1) := optparse_long o longopts longindex in
      let '(rs, o2) := optparse_long_loop n' o1 longopts li1 in
      (r :: rs, o2)
  end.

(** The length of the longest token. *)
Definition token_width (a : list string) : nat :=
  max_list (String.length <$> a).

(** A bound on the calls a parsing loop makes from the state [o]: one
    for each flag a token from the cursor on can hold. *)
Definition calls_bound (o : optparse_t) : nat :=
  (length (argv o) - optind o) * S (token_width (argv o))
  + (token_width (argv o) - subopt o).

(** A call that neither moves the cursor nor returns -1 has stepped to
    the next flag of a token of the array, which is long enough to have
    one. *)
Definition flag_step (o : optparse_t) (r : Z) (o1 : optparse_t) : Prop :=
  r = (-1)%Z
  \/ subopt o1 = S (subopt o)
     /\ subopt o + 2 <= token_width (argv o).

(** The token at the cursor is the long-style token [tok], a C string,
    the names of the table are C strings, and what [tok] holds after its
    dashes is [key], then ['='] and a value when [arg] is one. *)
Definition at_long_token (o : optparse_t) (longopts : list optparse_long_t)
  (tok key : string) (arg : option string) : Prop :=
  argv o !! optind o = Some tok
  /\ optparse__is_longopt (Some tok) = true
  /\ no_nul tok = true
  /\ Forall (fun e => forall n, longname e = Some n -> no_nul n = true)
       (table_entries longopts)
  /\ key = option_key (str_drop 2 tok)
  /\ arg = optparse__longopts_arg (str_drop 2 tok).

(** * Properties *)

#[local] Arguments optparse__is_dashdash : simpl never.
#[local] Arguments optparse__is_shortopt : simpl never.
#[local] Arguments optparse__is_longopt : simpl never.
#[local] Arguments optparse__permute : simpl never.
#[local] Arguments optparse__error : simpl never.
#[local] Arguments optparse__argtype : simpl never.
#[local] Arguments optparse_cluster : simpl never.
#[local] Arguments optparse__long_fallback : simpl never.
#[local] Arguments optparse_long_scan : simpl never.
#[local] Arguments optparse_long_entry : simpl never.

(** ** The recursion of [optparse] and [optparse_long] *)

Lemma optparse_fuel_total fuel o s :
  length (argv o) - optind o <= fuel ->
  exists r,
    optparse_fuel fuel o s = Some r
    /\ optparse_fuel (length (argv o) - optind o) o s = Some r.
Proof.
  revert o. induction fuel as [|fuel IH]; intros o Hf.
  - replace (length (argv o) - optind o) with 0 by lia. simpl.
    destruct (argv o !! optind o) as [tok|] eqn:Htok; [|eauto].
    apply lookup_lt_Some in Htok. lia.
  - destruct (argv o !! optind o) as [tok|] eqn:Htok.
    + pose proof (lookup_lt_Some _ _ _ Htok) as Hlt.
      destruct (length (argv o) - optind o) as [|n] eqn:Hn; [lia|].
      simpl. rewrite Htok.
      destruct (optparse__is_dashdash (Some tok)); [eauto|].
      destruct (optparse__is_shortopt (Some tok)); simpl; [eauto|].
      destruct (permute o =? 0)%Z; simpl; [eauto|].
      destruct (IH (set_optind (optparse_reset o) (S (optind o))))
        as ([r o2] & H1 & H2); [simpl; lia|].
      simpl in H2. replace (length (argv o) - S (optind o)) with n in H2 by lia.
      rewrite H1, H2. eauto.
    + destruct (length (argv o) - optind o); simpl; rewrite Htok; eauto.
Qed.

Lemma optparse_fuel_enough fuel o s :
  length (argv o) - optind o <= fuel ->
  optparse_fuel fuel o s = Some (optparse o s).
Proof.
  intros Hf. destruct (optparse_fuel_total fuel o s Hf) as (r & H1 & H2).
  unfold optparse. rewrite H1, H2. done.
Qed.

Lemma optparse_unfold o s :
  optparse o s =
    let o1 := optparse_reset o in
    match argv o !! optind o with
    | None => ((-1)%Z, o1)
    | Some tok =>
        if optparse__is_dashdash (Some tok)
        then ((-1)%Z, set_optind o1 (S (optind o)))
        else if negb (optparse__is_shortopt (Some tok))
        then
          if negb (permute o =? 0)%Z
          then
            let '(r, o2) := optparse (set_optind o1 (S (optind o))) s in
            let o3 := optparse__permute o2 (optind o) in
            (r, set_optind o3 (optind o3 - 1))
          else ((-1)%Z, o1)
        else optparse_cluster o1 s tok
    end.
Proof.
  pose proof (optparse_fuel_enough (S (length (argv o) - optind o)) o s) as H.
  specialize (H ltac:(lia)). simpl in H. revert H.
  destruct (argv o !! optind o) as [tok|] eqn:Htok; simpl; [|congruence].
  destruct (optparse__is_dashdash (Some tok)); [congruence|].
  destruct (optparse__is_shortopt (Some tok)); simpl; [congruence|].
  destruct (permute o =? 0)%Z; simpl; [congruence|].
  rewrite optparse_fuel_enough by (simpl; lia).
  destruct (optparse _ s) as [r o2]. congruence.
Qed.

Lemma optparse_long_fuel_total fuel o t li :
  length (argv o) - optind o <= fuel ->
  exists r,
    optparse_long_fuel fuel o t li = Some r
    /\ optparse_long_fuel (length (argv o) - optind o) o t li = Some r.
Proof.
  revert o. induction fuel as [|fuel IH]; intros o Hf.
  - replace (length (argv o) - optind o) with 0 by lia. simpl.
    destruct (argv o !! optind o) as [tok|] eqn:Htok; [|eauto].
    apply lookup_lt_Some in Htok. lia.
  - destruct (argv o !! optind o) as [tok|] eqn:Htok.
    + pose proof (lookup_lt_Some _ _ _ Htok) as Hlt.
      destruct (length (argv o) - optind o) as [|n] eqn:Hn; [lia|].
      simpl. rewrite Htok.
      destruct (optparse__is_dashdash (Some tok)); [eauto|].
      destruct (optparse__is_shortopt (Some tok)); simpl; [eauto|].
      destruct (optparse__is_longopt (Some tok)); simpl; [eauto|].
      destruct (permute o =? 0)%Z; simpl; [eauto|].
      destruct (IH (set_optind o (S (optind o))))
        as ([[r o2] li2] & H1 & H2); [simpl; lia|].
      simpl in H2. replace (length (argv o) - S (optind o)) with n in H2 by lia.
      rewrite H1, H2. eauto.
    + destruct (length (argv o) - optind o); simpl; rewrite Htok; eauto.
Qed.

Lemma optparse_long_fuel_enough fuel o t li :
  length (argv o) - optind o <= fuel ->
  optparse_long_fuel fuel o t li = Some (optparse_long o t li).
Proof.
  intros Hf. destruct (optparse_long_fuel_total fuel o t li Hf) as (r & H1 & H2).
  unfold optparse_long. rewrite H1, H2. done.
Qed.

Lemma optparse_long_unfold o t li :
  optparse_long o t li =
    match argv o !! optind o with
    | None => ((-1)%Z, o, li)
    | Some tok =>
        if optparse__is_dashdash (Some tok)
        then ((-1)%Z, set_optind o (S (optind o)), li)
        else if optparse__is_shortopt (Some tok)
        then optparse__long_fallback o t li
        else if negb (optparse__is_longopt (Some tok))
        then
          if negb (permute o =? 0)%Z
          then
            let '(r, o2, li2) :=
              optparse_long (set_optind o (S (optind o))) t li in
            let o3 := optparse__permute o2 (optind o) in
            (r, set_optind o3 (optind o3 - 1), li2)
          else ((-1)%Z, o, li)
        else
          optparse_long_scan t 0
            (set_optind (optparse_reset o) (S (optind o)))
            (str_drop 2 tok) li
    end.
Proof.
  pose proof (optparse_long_fuel_enough (S (length (argv o) - optind o)) o t li) as H.
  specialize (H ltac:(lia)). simpl in H. revert H.
  destruct (argv o !! optind o) as [tok|] eqn:Htok; simpl; [|congruence].
  destruct (optparse__is_dashdash (Some tok)); [congruence|].
  destruct (optparse__is_shortopt (Some tok)); simpl; [congruence|].
  destruct (optparse__is_longopt (Some tok)); simpl; [congruence|].
  destruct (permute o =? 0)%Z; simpl; [congruence|].
  rewrite optparse_long_fuel_enough by (simpl; lia).
  destruct (optparse_long _ t li) as [[r o2] li2]. congruence.
Qed.


(** ** Stepping over non-options

    Both scanners step over a run of non-options by calling themselves and
    rotating each non-option behind what the inner call consumed.  The
    section proves what this recursion does for any scanner of that shape:
    [skip] tells the tokens it steps over, [here] is what it does at a
    token it does not step over, [p] stands for its other arguments and [A]
    for what it returns besides the state. *)

Lemma permute_shift_spec mid pre (t : string) post :
  exists x,
    permute_shift (length mid) (length pre) (pre ++ t :: mid ++ post)
    = pre ++ mid ++ x :: post.
Proof.
  revert pre t. induction mid as [|m mid IH]; intros pre t; simpl.
  - by exists t.
  - rewrite lookup_app_r by lia.
    replace (S (length pre) - length pre) with 1 by lia. simpl.
    rewrite insert_app_r_alt by lia. rewrite Nat.sub_diag. simpl.
    destruct (IH (pre ++ [m]) m) as [x Hx].
    rewrite length_app, Nat.add_1_r in Hx. rewrite <- !app_assoc in Hx.
    simpl in Hx. eauto.
Qed.

Lemma permute_rotate o index pre t mid post :
  argv o = pre ++ t :: mid ++ post ->
  index = length pre ->
  optind o = S (index + length mid) ->
  optparse__permute o index = set_argv o (pre ++ mid ++ t :: post).
Proof.
  intros Ha -> Hi. unfold optparse__permute. rewrite Ha.
  rewrite list_lookup_middle by done. rewrite Hi.
  replace (S (length pre + length mid) - 1 - length pre) with (length mid) by lia.
  destruct (permute_shift_spec mid pre t post) as [x ->].
  f_equal. rewrite app_assoc.
  replace (S (length pre + length mid) - 1) with (length (pre ++ mid) + 0)
    by (rewrite length_app; lia).
  rewrite insert_app_r. simpl. by rewrite <- app_assoc.
Qed.

Lemma set_optind_same o : set_optind o (optind o) = o.
Proof. by destruct o. Qed.

Lemma interleave_left {A} (l : list A) : interleave l [] l.
Proof. induction l; constructor; done. Qed.

Lemma interleave_app_l {A} (l1 l2 l x : list A) :
  interleave l1 l2 l -> interleave (l1 ++ x) l2 (l ++ x).
Proof.
  induction 1; simpl; try (constructor; done). apply interleave_left.
Qed.

Lemma interleave_app_r {A} (l1 l2 l x : list A) :
  interleave l1 l2 l -> interleave l1 (l2 ++ x) (l ++ x).
Proof.
  induction 1; simpl; try (constructor; done).
  induction x; constructor; done.
Qed.

Lemma interleave_nil_inv {A} (l1 l2 : list A) :
  interleave l1 l2 [] -> l1 = [] /\ l2 = [].
Proof. by inversion 1. Qed.

Section Skipping.

Context {P A : Type}.
Variable skip : string -> bool.
Variable here : P -> optparse_t -> A * optparse_t.
Variable scan : P -> optparse_t -> A * optparse_t.

Hypothesis scan_unfold : forall p o,
  scan p o =
    match argv o !! optind o with
    | Some tok =>
        if skip tok && negb (permute o =? 0)%Z
        then
          let '(a, o2) := scan p (set_optind o (S (optind o))) in
          let o3 := optparse__permute o2 (optind o) in
          (a, set_optind o3 (optind o3 - 1))
        else here p o
    | None => here p o
    end.

Hypothesis here_argv : forall p o, argv (here p o).2 = argv o.

Hypothesis here_permute : forall p o, permute (here p o).2 = permute o.

Hypothesis here_optind : forall p o,
  optind o <= optind (here p o).2
  /\ optind (here p o).2 <= Nat.max (optind o) (length (argv o)).

(** With the tokens from the cursor on split into a run [s] of non-options
    and the rest [x], the call does at the head of [x] what [here] does,
    and moves the [k] tokens consumed there in front of [s]. *)
Lemma scan_skips p s : forall o x,
  drop (optind o) (argv o) = s ++ x ->
  s = [] \/ permute o <> 0%Z ->
  Forall (fun t => skip t = true) s ->
  stops_at skip o x ->
  exists a o1 k,
    here p (set_optind o (optind o + length s)) = (a, o1)
    /\ optind o1 = optind o + length s + k
    /\ k <= length x
    /\ scan p o =
         (a, set_optind
               (set_argv o1
                  (take (optind o) (argv o) ++ take k x ++ s ++ drop k x))
               (optind o + k)).
Proof.
  induction s as [|t s IH]; intros o x Hdrop Hperm Hskip Hstop.
  - simpl in *. rewrite Nat.add_0_r, set_optind_same.
    destruct (here p o) as [a o1] eqn:Hh.
    pose proof (here_argv p o) as Ha. pose proof (here_optind p o) as Hi.
    rewrite Hh in Ha, Hi. simpl in Ha, Hi.
    exists a, o1, (optind o1 - optind o).
    assert (length x = length (argv o) - optind o) as Hlen
      by (rewrite <- Hdrop; apply length_drop).
    split; [done|]. split; [lia|]. split; [lia|].
    assert (scan p o = here p o) as ->.
    { rewrite scan_unfold.
      destruct (argv o !! optind o) as [tok|] eqn:Htok; [|done].
      destruct Hstop as [H0|[->|(t & x' & -> & Ht)]].
      - rewrite H0. simpl. by rewrite andb_false_r.
      - apply lookup_lt_Some in Htok. simpl in Hlen. lia.
      - assert (drop (optind o) (argv o) !! 0 = Some t) as Hx by by rewrite Hdrop.
        rewrite lookup_drop, Nat.add_0_r, Htok in Hx. injection Hx as ->.
        by rewrite Ht. }
    rewrite Hh. f_equal.
    rewrite <- Hdrop at 1. rewrite <- Hdrop, take_drop, take_drop.
    destruct o1; simpl in *. subst. unfold set_optind, set_argv. simpl.
    f_equal. lia.
  - destruct Hperm as [?|Hperm]; [done|].
    apply Forall_cons in Hskip as [Ht Hskip].
    assert (argv o !! optind o = Some t) as Htok.
    { rewrite <- (Nat.add_0_r (optind o)), <- lookup_drop, Hdrop. done. }
    pose proof (lookup_lt_Some _ _ _ Htok) as Hlt.
    destruct (IH (set_optind o (S (optind o))) x) as (a & o1 & k & H1 & H2 & H3 & H4).
    { simpl. erewrite drop_S in Hdrop by done. by injection Hdrop. }
    { by right. }
    { done. }
    { done. }
    simpl in H1, H2, H4.
    exists a, o1, k.
    replace (optind o + length (t :: s)) with (S (optind o) + length s)
      by (simpl; lia).
    split; [done|]. split; [simpl; lia|]. split; [done|].
    rewrite scan_unfold, Htok, Ht.
    assert (negb (permute o =? 0)%Z = true) as -> by (apply negb_true_iff; lia).
    simpl. rewrite H4.
    erewrite take_S_r by done.
    rewrite <- !app_assoc. simpl.
    erewrite (permute_rotate _ (optind o) (take (optind o) (argv o)) t (take k x)).
    + simpl. unfold set_optind, set_argv. simpl. f_equal. f_equal. lia.
    + simpl. done.
    + rewrite length_take_le by lia. done.
    + simpl. rewrite !length_take_le by lia. done.
Qed.

Lemma skip_split (l : list string) :
  exists s x,
    l = s ++ x
    /\ Forall (fun t => skip t = true) s
    /\ (x = [] \/ exists t x', x = t :: x' /\ skip t = false).
Proof.
  induction l as [|t l (s & x & -> & Hs & Hx)].
  - exists [], []. auto.
  - destruct (skip t) eqn:Ht.
    + exists (t :: s), x. auto.
    + exists [], (t :: s ++ x). split; [done|]. split; [done|]. right. eauto.
Qed.

(** Every call is of the form of [scan_skips], with [s] the whole run of
    non-options at the cursor when permutation is on, and empty when it is
    off. *)
Lemma scan_here p o :
  exists s x a o1 k,
    drop (optind o) (argv o) = s ++ x
    /\ (s = [] \/ permute o <> 0%Z)
    /\ Forall (fun t => skip t = true) s
    /\ stops_at skip o x
    /\ here p (set_optind o (optind o + length s)) = (a, o1)
    /\ optind o1 = optind o + length s + k
    /\ k <= length x
    /\ scan p o =
         (a, set_optind
               (set_argv o1
                  (take (optind o) (argv o) ++ take k x ++ s ++ drop k x))
               (optind o + k)).
Proof.
  assert (exists s x, drop (optind o) (argv o) = s ++ x
            /\ (s = [] \/ permute o <> 0%Z)
            /\ Forall (fun t => skip t = true) s /\ stops_at skip o x)
    as (s & x & Hd & Hp & Hs & Hx).
  { destruct (decide (permute o = 0%Z)) as [H0|H0].
    - exists [], (drop (optind o) (argv o)). unfold stops_at; auto.
    - destruct (skip_split (drop (optind o) (argv o))) as (s & x & ? & ? & ?).
      exists s, x. unfold stops_at; auto. }
  destruct (scan_skips p s o x Hd Hp Hs Hx) as (a & o1 & k & Hh & Hi & Hk & Ho).
  exists s, x, a, o1, k. done.
Qed.

(** One call moves the tokens it consumes, [c], in front of the run [s] of
    non-options it stepped over. *)
Lemma scan_moves p o :
  exists s c r,
    drop (optind o) (argv o) = s ++ c ++ r
    /\ Forall (fun t => skip t = true) s
    /\ stops_at skip o (c ++ r)
    /\ argv (scan p o).2 = take (optind o) (argv o) ++ c ++ s ++ r
    /\ optind (scan p o).2 = optind o + length c
    /\ permute (scan p o).2 = permute o.
Proof.
  destruct (scan_here p o)
    as (s & x & a & o1 & k & Hd & _ & Hs & Hx & Hh & Hi & Hk & ->).
  exists s, (take k x), (drop k x). rewrite take_drop. simpl.
  split; [done|]. split; [done|]. split; [done|]. split; [done|].
  split; [rewrite length_take_le by done; lia|].
  pose proof (here_permute p (set_optind o (optind o + length s))) as Hq.
  by rewrite Hh in Hq.
Qed.

Lemma stable_inv_refl o : stable_inv skip o o.
Proof.
  exists [], [], [], (drop (optind o) (argv o)). simpl.
  rewrite take_drop, Nat.add_0_r. repeat split; try done. constructor.
Qed.

Lemma stable_inv_step p o0 o :
  permute o0 <> 0%Z -> stable_inv skip o0 o -> stable_inv skip o0 (scan p o).2.
Proof.
  intros Hp (C & K & M & rest & Hd & Hint & Ha & Hi & HK & Hq).
  destruct (scan_moves p o) as (s & c & r & Hd' & Hs & Hstop & Ha' & Hi' & Hq').
  destruct (decide (optind o0 <= length (argv o0))) as [Hle|Hgt].
  - assert (length (take (optind o0) (argv o0)) = optind o0) as Hlen
      by (rewrite length_take_le; done).
    assert (take (optind o) (argv o) = take (optind o0) (argv o0) ++ C) as Htake.
    { rewrite Ha, app_assoc. apply take_app_length'.
      rewrite length_app. lia. }
    assert (drop (optind o) (argv o) = K ++ rest) as Hdrop.
    { rewrite Ha, (app_assoc _ C). apply drop_app_length'.
      rewrite length_app. lia. }
    rewrite Hdrop in Hd'.
    assert (exists s2, s = K ++ s2 /\ rest = s2 ++ c ++ r) as (s2 & -> & ->).
    { apply app_eq_inv in Hd' as [(k' & -> & Hx)|(k' & -> & ->)]; [|eauto].
      destruct k' as [|t k'].
      - exists []. rewrite !app_nil_r. simpl in *. by rewrite Hx.
      - exfalso. apply Forall_app in HK as [_ HK].
        apply Forall_cons in HK as [Ht _].
        destruct Hstop as [H0|[Hnil|(t' & x' & Hx' & Ht')]].
        + congruence.
        + rewrite Hx in Hnil. done.
        + rewrite Hx in Hx'. simpl in Hx'. injection Hx' as -> _. congruence. }
    exists (C ++ c), (K ++ s2), (M ++ s2 ++ c), r.
    split; [by rewrite Hd, <- !app_assoc|].
    split.
    { rewrite (app_assoc M). apply interleave_app_l, interleave_app_r, Hint. }
    split; [by rewrite Ha', Htake, <- !app_assoc|].
    split; [rewrite Hi', Hi, length_app; lia|].
    split; [done|]. congruence.
  - assert (drop (optind o0) (argv o0) = []) as Hnil by (apply drop_ge; lia).
    rewrite Hnil in Hd. symmetry in Hd. apply app_eq_nil in Hd as [-> ->].
    apply interleave_nil_inv in Hint as [-> ->]. simpl in *.
    rewrite app_nil_r in Ha. rewrite take_ge in Ha by lia.
    rewrite Nat.add_0_r in Hi.
    rewrite Ha, Hi, Hnil in Hd'. symmetry in Hd'.
    apply app_eq_nil in Hd' as [-> Hd']. apply app_eq_nil in Hd' as [-> ->].
    exists [], [], [], []. rewrite Hnil. simpl.
    rewrite Ha', Hi', Ha, Hi. simpl. rewrite !app_nil_r.
    repeat split; try done; try constructor. congruence.
Qed.

Lemma run_scan_stable ps : forall o0 o,
  permute o0 <> 0%Z -> stable_inv skip o0 o -> stable_inv skip o0 (run_scan scan ps o).
Proof.
  induction ps as [|p ps IH]; intros o0 o Hp Hinv; [done|].
  simpl. apply IH; [done|]. by apply stable_inv_step.
Qed.

(** A run of calls of one scanner keeps the consumed tokens and the
    remaining ones each in the order they had. *)
Lemma run_scan_stable_partition ps o :
  permute o <> 0%Z -> stable_partition o (run_scan scan ps o).
Proof.
  intros Hp.
  destruct (run_scan_stable ps o o Hp (stable_inv_refl o))
    as (C & K & M & rest & ? & ? & ? & ? & _).
  exists C, K, M, rest. done.
Qed.

End Skipping.

(** ** The two scanners fit the scheme *)

Lemma argtype_cases optstring c :
  optparse__argtype optstring c = (-1)%Z
  \/ optparse__argtype optstring c = 0%Z
  \/ optparse__argtype optstring c = 1%Z
  \/ optparse__argtype optstring c = 2%Z.
Proof.
  unfold optparse__argtype.
  destruct (c =? ":")%char; [auto|].
  destruct (char_at _ 0 =? NUL)%char; [auto|].
  destruct (char_at _ 1 =? ":")%char; [|auto].
  destruct (char_at _ 2 =? ":")%char; auto.
Qed.

(** Case analysis on the kind of the flag [c] in [optstring]. *)
Ltac by_argtype optstring c :=
  let H := fresh "Hty" in
  destruct (argtype_cases optstring c) as [H|[H|[H|H]]]; rewrite H.

(** A call on a cluster leaves the array and the permutation toggle
    alone, and moves the cursor by at most two tokens, by two only when a
    token follows. *)
Lemma optparse_cluster_frame o s tok :
  let o' := (optparse_cluster o s tok).2 in
  argv o' = argv o /\ permute o' = permute o
  /\ optind o <= optind o'
  /\ (optind o' <= S (optind o)
      \/ optind o' = S (S (optind o)) /\ is_Some (argv o !! (optind o + 1))).
Proof.
  unfold optparse_cluster. cbv zeta.
  by_argtype s (char_at (str_drop (subopt o + 1) tok) 0).
  - unfold optparse__error. simpl. auto with lia.
  - destruct (negb _); simpl; auto with lia.
  - destruct (negb _); simpl; [auto with lia|].
    destruct (argv o !! (optind o + 1)) eqn:Hn.
    + simpl. repeat split; eauto with lia.
    + unfold optparse__error. simpl. auto with lia.
  - simpl. auto with lia.
Qed.

Lemma optparse_here_frame s o :
  let o' := (optparse_here s o).2 in
  argv o' = argv o /\ permute o' = permute o
  /\ optind o <= optind o'
  /\ optind o' <= Nat.max (optind o) (length (argv o)).
Proof.
  unfold optparse_here. cbv zeta.
  destruct (argv o !! optind o) as [tok|] eqn:Htok; [|simpl; auto with lia].
  pose proof (lookup_lt_Some _ _ _ Htok).
  destruct (optparse__is_dashdash _); [simpl; auto with lia|].
  destruct (negb _); [simpl; auto with lia|].
  destruct (optparse_cluster_frame (optparse_reset o) s tok)
    as (Ha & Hp & Hi & Hj).
  simpl in *. rewrite Ha, Hp. split; [done|]. split; [done|].
  split; [done|]. destruct Hj as [Hj|[Hj Hn]]; [lia|].
  destruct Hn as [t Hn]. apply lookup_lt_Some in Hn. lia.
Qed.

Lemma optparse_reset_absorb o s : optparse (optparse_reset o) s = optparse o s.
Proof.
  rewrite (optparse_unfold (optparse_reset o)), (optparse_unfold o).
  by destruct o.
Qed.

Lemma scan_short_unfold s o :
  scan_short s o =
    match argv o !! optind o with
    | Some tok =>
        if nonoption_short tok && negb (permute o =? 0)%Z
        then
          let '(a, o2) := scan_short s (set_optind o (S (optind o))) in
          let o3 := optparse__permute o2 (optind o) in
          (a, set_optind o3 (optind o3 - 1))
        else optparse_here s o
    | None => optparse_here s o
    end.
Proof.
  unfold scan_short, optparse_here, nonoption_short.
  rewrite optparse_unfold. cbv zeta.
  destruct (argv o !! optind o) as [tok|]; [|done].
  destruct (optparse__is_dashdash _); [done|].
  destruct (optparse__is_shortopt _); [done|]. simpl.
  destruct (negb _); [|done].
  change (set_optind (optparse_reset o) (S (optind o)))
    with (optparse_reset (set_optind o (S (optind o)))).
  by rewrite optparse_reset_absorb.
Qed.

(** [optparse__error] touches the message only. *)
Lemma optparse__error_frame o msg data :
  let o' := (optparse__error o msg data).2 in
  argv o' = argv o /\ permute o' = permute o /\ optind o' = optind o
  /\ optopt o' = optopt o /\ optarg o' = optarg o /\ subopt o' = subopt o.
Proof. unfold optparse__error. simpl. repeat split. Qed.

Lemma optparse_long_entry_frame e i o opt li :
  let o' := (optparse_long_entry e i o opt li).1.2 in
  argv o' = argv o /\ permute o' = permute o
  /\ optind o <= optind o'
  /\ optind o' <= Nat.max (optind o) (length (argv o)).
Proof.
  unfold optparse_long_entry, optparse__error. cbv zeta.
  destruct (argtype e), (optparse__longopts_arg opt); simpl; auto with lia.
  destruct (argv o !! optind o) eqn:Hn; simpl; auto with lia.
  apply lookup_lt_Some in Hn. auto with lia.
Qed.

Lemma optparse_long_scan_frame t : forall i o opt li,
  let o' := (optparse_long_scan t i o opt li).1.2 in
  argv o' = argv o /\ permute o' = permute o
  /\ optind o <= optind o'
  /\ optind o' <= Nat.max (optind o) (length (argv o)).
Proof.
  induction t as [|e t IH]; intros i o opt li; simpl.
  - unfold optparse_long_scan, optparse__error. simpl. auto with lia.
  - unfold optparse_long_scan. fold optparse_long_scan.
    destruct (optparse_longopts_end e).
    { unfold optparse__error. simpl. auto with lia. }
    destruct (negb _); [apply IH|]. apply optparse_long_entry_frame.
Qed.

Lemma optparse_here_cluster s o tok :
  argv o !! optind o = Some tok ->
  optparse__is_shortopt (Some tok) = true ->
  optparse o s = optparse_cluster (optparse_reset o) s tok.
Proof.
  intros Htok Hs. rewrite optparse_unfold. cbv zeta. rewrite Htok, Hs.
  destruct (optparse__is_dashdash (Some tok)) eqn:Hd; [|done].
  unfold optparse__is_dashdash, optparse__is_shortopt in *.
  destruct (char_at tok 0 =? "-")%char, (char_at tok 1 =? "-")%char; done.
Qed.

Lemma optparse_long_here_frame t li o :
  let o' := (optparse_long_here t li o).1.2 in
  argv o' = argv o /\ permute o' = permute o
  /\ optind o <= optind o'
  /\ optind o' <= Nat.max (optind o) (length (argv o)).
Proof.
  unfold optparse_long_here. cbv zeta.
  destruct (argv o !! optind o) as [tok|] eqn:Htok; [|simpl; auto with lia].
  pose proof (lookup_lt_Some _ _ _ Htok).
  destruct (optparse__is_dashdash _); [simpl; auto with lia|].
  destruct (optparse__is_shortopt _) eqn:Hs.
  { unfold optparse__long_fallback.
    rewrite (optparse_here_cluster _ _ tok) by done.
    destruct (optparse_cluster_frame (optparse_reset o)
                (optparse__from_long t) tok) as (Ha & Hp & Hi & Hj).
    destruct (optparse_cluster _ _ _) as [r o']. simpl in *.
    rewrite Ha, Hp. split; [done|]. split; [done|]. split; [done|].
    destruct Hj as [Hj|[Hj Hn]]; [lia|].
    destruct Hn as [t' Hn]. apply lookup_lt_Some in Hn. lia. }
  destruct (negb _); [simpl; auto with lia|].
  destruct (optparse_long_scan_frame t 0
              (set_optind (optparse_reset o) (S (optind o)))
              (str_drop 2 tok) li) as (Ha & Hp & Hi & Hj).
  simpl in *. rewrite Ha, Hp. split; [done|]. split; [done|]. lia.
Qed.

Lemma scan_long_unfold p o :
  scan_long p o =
    match argv o !! optind o with
    | Some tok =>
        if nonoption_long tok && negb (permute o =? 0)%Z
        then
          let '(a, o2) := scan_long p (set_optind o (S (optind o))) in
          let o3 := optparse__permute o2 (optind o) in
          (a, set_optind o3 (optind o3 - 1))
        else here_long p o
    | None => here_long p o
    end.
Proof.
  unfold scan_long, here_long, optparse_long_here, nonoption_long.
  rewrite optparse_long_unfold.
  destruct (argv o !! optind o) as [tok|]; [|done].
  destruct (optparse__is_dashdash _); [done|].
  destruct (optparse__is_shortopt _); [done|].
  destruct (optparse__is_longopt _); [done|]. simpl.
  destruct (negb _); [|done].
  by destruct (optparse_long _ _ _) as [[r o2] li2].
Qed.

Lemma here_long_frame p o :
  let o' := (here_long p o).2 in
  argv o' = argv o /\ permute o' = permute o
  /\ optind o <= optind o'
  /\ optind o' <= Nat.max (optind o) (length (argv o)).
Proof.
  pose proof (optparse_long_here_frame p.1 p.2 o) as H.
  unfold here_long. by destruct (optparse_long_here _ _ _) as [[r o'] li].
Qed.

Lemma optparse_skips s sk : forall o x,
  drop (optind o) (argv o) = sk ++ x ->
  sk = [] \/ permute o <> 0%Z ->
  Forall (fun t => nonoption_short t = true) sk ->
  stops_at nonoption_short o x ->
  exists a o1 k,
    optparse_here s (set_optind o (optind o + length sk)) = (a, o1)
    /\ optind o1 = optind o + length sk + k
    /\ k <= length x
    /\ optparse o s =
         (a, set_optind
               (set_argv o1
                  (take (optind o) (argv o) ++ take k x ++ sk ++ drop k x))
               (optind o + k)).
Proof.
  apply (scan_skips nonoption_short optparse_here scan_short).
  - apply scan_short_unfold.
  - intros. apply optparse_here_frame.
  - intros. apply optparse_here_frame.
Qed.

(** Every call of [optparse] steps over a run [sk] of non-options, does
    at the next token what [optparse_here] does, and moves the [k] tokens
    consumed there in front of [sk]. *)
Lemma optparse_stops s o :
  exists sk x r o1 k,
    drop (optind o) (argv o) = sk ++ x
    /\ (sk = [] \/ permute o <> 0%Z)
    /\ Forall (fun t => nonoption_short t = true) sk
    /\ stops_at nonoption_short o x
    /\ optparse_here s (set_optind o (optind o + length sk)) = (r, o1)
    /\ optparse o s =
         (r, set_optind
               (set_argv o1
                  (take (optind o) (argv o) ++ take k x ++ sk ++ drop k x))
               (optind o + k)).
Proof.
  destruct (scan_here nonoption_short optparse_here scan_short
              scan_short_unfold
              (fun p o => proj1 (optparse_here_frame p o))
              (fun p o => proj2 (proj2 (optparse_here_frame p o))) s o)
    as (sk & x & r & o1 & k & Hd & Hp & Hs & Hx & Hh & _ & _ & Ho).
  exists sk, x, r, o1, k. done.
Qed.

(** The same for [optparse_long]. *)
Lemma optparse_long_stops t li o :
  exists sk x r li' o1 k,
    drop (optind o) (argv o) = sk ++ x
    /\ (sk = [] \/ permute o <> 0%Z)
    /\ Forall (fun t => nonoption_long t = true) sk
    /\ stops_at nonoption_long o x
    /\ optparse_long_here t li (set_optind o (optind o + length sk))
       = (r, o1, li')
    /\ optparse_long o t li =
         (r, set_optind
               (set_argv o1
                  (take (optind o) (argv o) ++ take k x ++ sk ++ drop k x))
               (optind o + k), li').
Proof.
  destruct (scan_here nonoption_long here_long scan_long scan_long_unfold
              (fun p o => proj1 (here_long_frame p o))
              (fun p o => proj2 (proj2 (here_long_frame p o))) (t, li) o)
    as (sk & x & [r li'] & o1 & k & Hd & Hp & Hs & Hx & Hh & _ & _ & Ho).
  exists sk, x, r, li', o1, k. unfold here_long, scan_long in *. simpl in *.
  destruct (optparse_long_here _ _ _) as [[r1 o1'] li1].
  destruct (optparse_long o t li) as [[r2 o2] li2].
  repeat split; try done; congruence.
Qed.

(** ** Strings and draining *)

Lemma char_at_str_drop n : forall s i,
  char_at (str_drop n s) i = char_at s (n + i).
Proof.
  induction n as [|n IH]; intros s i; [done|].
  destruct s as [|c s]; simpl; [by destruct i|]. apply IH.
Qed.

Lemma str_drop_add n : forall m s,
  str_drop m (str_drop n s) = str_drop (n + m) s.
Proof.
  induction n as [|n IH]; intros m s; [done|].
  destruct s as [|c s]; simpl; [by destruct m|]. apply IH.
Qed.

Lemma unconsumed_args_fuel_drop fuel : forall o,
  length (argv o) - optind o < fuel ->
  unconsumed_args_fuel fuel o = drop (optind o) (argv o).
Proof.
  induction fuel as [|fuel IH]; intros o Hf; [lia|].
  simpl. unfold optparse_arg.
  destruct (argv o !! optind o) as [a|] eqn:Ha.
  - pose proof (lookup_lt_Some _ _ _ Ha).
    rewrite IH by (simpl; lia). simpl. symmetry. by apply drop_S.
  - apply lookup_ge_None in Ha. symmetry. by apply drop_ge.
Qed.

(** Draining returns every token from the cursor on, in order. *)
Lemma unconsumed_args_drop o :
  unconsumed_args o = drop (optind o) (argv o).
Proof. apply unconsumed_args_fuel_drop. lia. Qed.

Lemma drop_after_block (l : list string) n c r :
  n <= length l -> drop (n + length c) (take n l ++ c ++ r) = r.
Proof.
  intros Hn. rewrite app_assoc. apply drop_app_length'.
  rewrite length_app, length_take_le; done.
Qed.

Lemma optparse_arg_head o : (optparse_arg o).1 = head (drop (optind o) (argv o)).
Proof.
  unfold optparse_arg. rewrite head_lookup, lookup_drop, Nat.add_0_r.
  by destruct (argv o !! optind o).
Qed.

Lemma shortopt_not_dashdash a :
  optparse__is_shortopt a = true -> optparse__is_dashdash a = false.
Proof.
  unfold optparse__is_shortopt, optparse__is_dashdash.
  destruct a as [a|]; [|done].
  destruct (char_at a 0 =? "-")%char, (char_at a 1 =? "-")%char; done.
Qed.

Lemma longopt_not_dashdash a :
  optparse__is_longopt a = true -> optparse__is_dashdash a = false.
Proof.
  unfold optparse__is_longopt, optparse__is_dashdash.
  destruct a as [a|]; [|done].
  destruct (char_at a 0 =? "-")%char, (char_at a 1 =? "-")%char,
    (char_at a 2 =? NUL)%char; done.
Qed.

Lemma longopt_not_shortopt a :
  optparse__is_longopt a = true -> optparse__is_shortopt a = false.
Proof.
  unfold optparse__is_longopt, optparse__is_shortopt.
  destruct a as [a|]; [|done].
  destruct (char_at a 0 =? "-")%char, (char_at a 1 =? "-")%char; done.
Qed.

(** At a long-style token [optparse_long] is its table scan. *)
Lemma optparse_long_at_longopt o t li tok :
  argv o !! optind o = Some tok ->
  optparse__is_longopt (Some tok) = true ->
  optparse_long o t li
  = optparse_long_scan t 0 (set_optind (optparse_reset o) (S (optind o)))
      (str_drop 2 tok) li.
Proof.
  intros Htok Hl. rewrite optparse_long_unfold, Htok.
  by rewrite (longopt_not_dashdash _ Hl), (longopt_not_shortopt _ Hl), Hl.
Qed.

(** In strict mode [optparse_long] stops at a non-option and changes
    nothing. *)
Lemma optparse_long_strict_stop o t li tok :
  argv o !! optind o = Some tok ->
  nonoption_long tok = true ->
  permute o = 0%Z ->
  optparse_long o t li = ((-1)%Z, o, li).
Proof.
  intros Htok Hn Hp. rewrite optparse_long_unfold, Htok.
  unfold nonoption_long in Hn.
  apply andb_true_iff in Hn as [Hn Hl]. apply andb_true_iff in Hn as [Hd Hs].
  apply negb_true_iff in Hd, Hs. by rewrite Hd, Hs, Hl, Hp.
Qed.

(** ** Short options at the head of the option run *)

#[local] Arguments str_drop : simpl never.
#[local] Arguments char_at : simpl never.

(** A call whose first token past a run [sk] of non-options is a cluster
    [tok] does what [optparse_cluster] does there, and moves the [k]
    tokens consumed in front of [sk]. *)
Lemma optparse_at_cluster s o sk tok rest :
  drop (optind o) (argv o) = sk ++ tok :: rest ->
  sk = [] \/ permute o <> 0%Z ->
  Forall (fun t => nonoption_short t = true) sk ->
  optparse__is_shortopt (Some tok) = true ->
  exists r o1 k,
    optparse_cluster
      (optparse_reset (set_optind o (optind o + length sk))) s tok = (r, o1)
    /\ optind o1 = optind o + length sk + k
    /\ optparse o s =
         (r, set_optind
               (set_argv o1
                  (take (optind o) (argv o)
                   ++ take k (tok :: rest) ++ sk ++ drop k (tok :: rest)))
               (optind o + k)).
Proof.
  intros Hd Hp Hs Ht.
  destruct (optparse_skips s sk o (tok :: rest) Hd Hp Hs)
    as (r & o1 & k & Hh & Hi & Hk & Ho).
  { right. right. exists tok, rest. split; [done|].
    unfold nonoption_short. rewrite Ht. by rewrite andb_false_r. }
  exists r, o1, k. split; [|done].
  rewrite <- Hh. unfold optparse_here. cbv zeta. simpl.
  assert (argv o !! (optind o + length sk) = Some tok) as ->.
  { rewrite <- lookup_drop, Hd. by apply list_lookup_middle. }
  by rewrite (shortopt_not_dashdash _ Ht), Ht.
Qed.

(** C1: over [prog -a -b -cred -d 10 -e] with specification ["abc:d:e"],
    six calls of [optparse] return [a], [b], [c] with argument ["red"],
    [d] with argument ["10"], [e] and then -1, and [optparse_arg] then
    returns NULL. *)
Theorem C1_end_to_end_short_scenario (o : optparse_t) :
  let spec := "abc:d:e" in
  let o0 := optparse_init o ["prog"; "-a"; "-b"; "-cred"; "-d"; "10"; "-e"] in
  let '(r1, o1) := optparse o0 spec in
  let '(r2, o2) := optparse o1 spec in
  let '(r3, o3) := optparse o2 spec in
  let '(r4, o4) := optparse o3 spec in
  let '(r5, o5) := optparse o4 spec in
  let '(r6, o6) := optparse o5 spec in
  (r1, optarg o1) = (char_lit "a", None)
  /\ (r2, optarg o2) = (char_lit "b", None)
  /\ (r3, optarg o3) = (char_lit "c", Some "red")
  /\ (r4, optarg o4) = (char_lit "d", Some "10")
  /\ (r5, optarg o5) = (char_lit "e", None)
  /\ r6 = (-1)%Z
  /\ (optparse_arg o6).1 = None.
Proof. vm_compute. repeat split. Qed.

(** C9: when the token at the cursor is exactly ["--"], [optparse] and
    [optparse_long] both return -1 and leave the cursor just past it,
    whatever the permutation toggle is, and every token after it is then
    returned by [optparse_arg], in order, whatever it looks like. *)
Theorem C9_double_dash_terminates o optstring longopts longindex :
  argv o !! optind o = Some "--" ->
  optparse o optstring
  = ((-1)%Z, set_optind (optparse_reset o) (S (optind o)))
  /\ optparse_long o longopts longindex
     = ((-1)%Z, set_optind o (S (optind o)), longindex)
  /\ unconsumed_args (optparse o optstring).2 = drop (S (optind o)) (argv o)
  /\ unconsumed_args (optparse_long o longopts longindex).1.2
     = drop (S (optind o)) (argv o).
Proof.
  intros Htok.
  assert (optparse o optstring
          = ((-1)%Z, set_optind (optparse_reset o) (S (optind o)))) as H1.
  { rewrite optparse_unfold. cbv zeta. by rewrite Htok. }
  assert (optparse_long o longopts longindex
          = ((-1)%Z, set_optind o (S (optind o)), longindex)) as H2.
  { rewrite optparse_long_unfold. by rewrite Htok. }
  rewrite H1, H2. rewrite !unconsumed_args_drop. done.
Qed.

(** C3: a short flag declared with an optional value, read at offset
    [subopt + 1] of the first cluster [tok] past the non-options [sk]:
    the call returns the flag; the argument is the rest of [tok] when
    characters follow the flag, and absent when none does.  Only [tok] is
    consumed: the tokens [rest] after it are all still to come, and the
    first of them is what [optparse_arg] returns next when no non-option
    was stepped over. *)
Theorem C3_short_optional_value o optstring sk tok rest :
  drop (optind o) (argv o) = sk ++ tok :: rest ->
  sk = [] \/ permute o <> 0%Z ->
  Forall (fun t => nonoption_short t = true) sk ->
  optparse__is_shortopt (Some tok) = true ->
  optparse__argtype optstring (char_at tok (subopt o + 1)) = 2%Z ->
  let flag := char_at tok (subopt o + 1) in
  let '(r, o') := optparse o optstring in
  r = char_to_int flag
  /\ (char_at tok (subopt o + 2) <> NUL ->
      optarg o' = Some (str_drop (subopt o + 2) tok))
  /\ (char_at tok (subopt o + 2) = NUL -> optarg o' = None)
  /\ argv o' = take (optind o) (argv o) ++ tok :: sk ++ rest
  /\ optind o' = S (optind o)
  /\ unconsumed_args o' = sk ++ rest
  /\ (sk = [] -> (optparse_arg o').1 = head rest).
Proof.
  intros Hd Hp Hs Ht Hty flag.
  destruct (optparse_at_cluster optstring o sk tok rest Hd Hp Hs Ht)
    as (r & o1 & k & Hc & Hi & ->).
  unfold optparse_cluster in Hc. cbv zeta in Hc. simpl in Hc.
  rewrite !char_at_str_drop, str_drop_add, !Nat.add_0_r in Hc.
  rewrite Hty in Hc. injection Hc as <- <-. simpl in Hi.
  assert (k = 1) as -> by lia. simpl.
  assert (optind o <= length (argv o)) as Hle.
  { destruct (decide (optind o <= length (argv o))); [done|].
    rewrite drop_ge in Hd by lia. by destruct sk. }
  replace (subopt o + 1 + 1) with (subopt o + 2) by lia.
  split; [done|].
  split. { intros Hn. apply Ascii.eqb_neq in Hn. by rewrite Hn. }
  split. { intros Hn. by rewrite Hn. }
  split; [done|]. split; [lia|].
  assert (drop (optind o + 1) (take (optind o) (argv o) ++ tok :: sk ++ rest)
          = sk ++ rest) as Hrest
    by apply (drop_after_block _ _ [tok] _ Hle).
  split.
  { rewrite unconsumed_args_drop. simpl. exact Hrest. }
  intros ->. rewrite optparse_arg_head. simpl in *.
  rewrite drop_0. by rewrite Hrest.
Qed.

(** ** Error messages *)

Lemma str_app_cons c s t : String c s +:+ t = String c (s +:+ t).
Proof. reflexivity. Qed.

Lemma str_app_nil_l s : "" +:+ s = s.
Proof. reflexivity. Qed.

Lemma str_app_nil_r s : s +:+ "" = s.
Proof.
  induction s as [|c s IH]; [done|]. by rewrite str_app_cons, IH.
Qed.

Lemma str_app_assoc s1 s2 s3 : (s1 +:+ s2) +:+ s3 = s1 +:+ s2 +:+ s3.
Proof.
  induction s1 as [|c s1 IH]; [done|]. by rewrite !str_app_cons, IH.
Qed.

Lemma str_length_app s1 s2 :
  String.length (s1 +:+ s2) = String.length s1 + String.length s2.
Proof.
  induction s1 as [|c s1 IH]; [done|]. rewrite str_app_cons. simpl.
  by rewrite IH.
Qed.

Lemma substring_0_length n : forall s, String.length (substring 0 n s) <= n.
Proof.
  induction n as [|n IH]; intros [|c s]; simpl; try lia.
  specialize (IH s). lia.
Qed.

Lemma substring_0_all n : forall s, String.length s <= n -> substring 0 n s = s.
Proof.
  induction n as [|n IH]; intros [|c s] Hs; simpl in *; try done; try lia.
  rewrite IH; [done|lia].
Qed.

(** A copying loop appends as much of [src] as the limit leaves room
    for. *)
Lemma buf_copy_spec limit src : forall buf,
  buf_copy limit src buf
  = buf +:+ substring 0 (limit - String.length buf) src.
Proof.
  induction src as [|c src IH]; intros buf; simpl.
  - destruct (limit - String.length buf); simpl; by rewrite str_app_nil_r.
  - destruct (Nat.ltb_spec (String.length buf) limit) as [Hlt|Hge].
    + rewrite IH, str_app_assoc, str_length_app. simpl.
      destruct (limit - String.length buf) as [|n] eqn:Hn; [lia|].
      simpl. do 3 f_equal. lia.
    + replace (limit - String.length buf) with 0 by lia.
      simpl. by rewrite str_app_nil_r.
Qed.

#[local] Arguments buf_copy : simpl never.

(** The message [optparse__error] stores, for a reason phrase that leaves
    room for the separator. *)
Lemma optparse__error_message o msg data :
  String.length msg + 5 <= errmsg_size - 2 ->
  errmsg (optparse__error o msg data).2
  = msg +:+ " -- '"
    +:+ substring 0 (errmsg_size - 2 - (String.length msg + 5)) data +:+ "'".
Proof.
  unfold errmsg_size. intros Hm. unfold optparse__error, errmsg_size. simpl.
  rewrite !buf_copy_spec. rewrite !str_app_nil_l.
  change (String.length "") with 0. rewrite Nat.sub_0_r.
  rewrite (substring_0_all 63 msg) by lia.
  rewrite (substring_0_all (63 - String.length msg) " -- '")
    by (change (String.length " -- '") with 5; lia).
  rewrite !str_length_app. change (String.length " -- '") with 5.
  pose proof (substring_0_length (62 - (String.length msg + 5)) data) as Hd.
  destruct (Nat.ltb_spec
              (String.length msg + 5
               + String.length
                   (substring 0 (62 - (String.length msg + 5)) data)) 63)
    as [_|Hge]; [|lia].
  by rewrite !str_app_assoc.
Qed.

Lemma optparse__error_eq o msg data :
  String.length msg + 5 <= errmsg_size - 2 ->
  optparse__error o msg data
  = (char_lit "?",
     set_errmsg o
       (msg +:+ " -- '"
        +:+ substring 0 (errmsg_size - 2 - (String.length msg + 5)) data
        +:+ "'")).
Proof.
  intros Hm. rewrite <- (optparse__error_message o msg data Hm). done.
Qed.

Ltac error_result :=
  rewrite optparse__error_eq by (unfold errmsg_size; simpl; lia);
  unfold errmsg_size; simpl.

Lemma optstring_seek_head optstring c :
  optstring_seek optstring c = ""
  \/ exists rest, optstring_seek optstring c = String c rest.
Proof.
  induction optstring as [|d rest IH]; simpl; [auto|].
  destruct (Ascii.eqb_spec c d) as [->|_]; eauto.
Qed.

(** The terminator is never a valid flag. *)
Lemma argtype_NUL optstring : optparse__argtype optstring NUL = (-1)%Z.
Proof.
  unfold optparse__argtype. simpl.
  by destruct (optstring_seek_head optstring NUL) as [->|[rest ->]].
Qed.

Lemma argtype_flag_not_NUL optstring c :
  optparse__argtype optstring c <> (-1)%Z -> c <> NUL.
Proof. intros H ->. by rewrite argtype_NUL in H. Qed.

(** C4: a short flag declared with a required value, read at offset
    [subopt + 1] of the first cluster [tok] past the non-options [sk].
    When characters follow the flag in [tok], they are the argument and
    only [tok] is consumed.  Otherwise, when a token [next] follows [tok],
    it is the argument and both are consumed.  Otherwise the call returns
    ['?'], the message is the missing-argument phrase with the flag, the
    argument is absent and the flag is recorded in [optopt]. *)
Theorem C4_short_required_value o optstring sk tok rest :
  drop (optind o) (argv o) = sk ++ tok :: rest ->
  sk = [] \/ permute o <> 0%Z ->
  Forall (fun t => nonoption_short t = true) sk ->
  optparse__is_shortopt (Some tok) = true ->
  optparse__argtype optstring (char_at tok (subopt o + 1)) = 1%Z ->
  let flag := char_at tok (subopt o + 1) in
  let '(r, o') := optparse o optstring in
  (char_at tok (subopt o + 2) <> NUL ->
     r = char_to_int flag
     /\ optarg o' = Some (str_drop (subopt o + 2) tok)
     /\ optind o' = S (optind o)
     /\ argv o' = take (optind o) (argv o) ++ tok :: sk ++ rest)
  /\ (char_at tok (subopt o + 2) = NUL ->
      forall next rest', rest = next :: rest' ->
        r = char_to_int flag
        /\ optarg o' = Some next
        /\ optind o' = S (S (optind o))
        /\ argv o' = take (optind o) (argv o) ++ tok :: next :: sk ++ rest')
  /\ (char_at tok (subopt o + 2) = NUL ->
      rest = [] ->
        r = char_lit "?"
        /\ errmsg o' = "option requires an argument -- '" +:+ String flag "'"
        /\ optarg o' = None
        /\ optopt o' = char_to_int flag
        /\ optind o' = S (optind o)
        /\ argv o' = take (optind o) (argv o) ++ tok :: sk).
Proof.
  intros Hd Hp Hs Ht Hty flag.
  destruct (optparse_at_cluster optstring o sk tok rest Hd Hp Hs Ht)
    as (r & o1 & k & Hc & Hi & ->).
  unfold optparse_cluster in Hc. cbv zeta in Hc. simpl in Hc.
  rewrite !char_at_str_drop, str_drop_add, !Nat.add_0_r in Hc.
  rewrite Hty in Hc.
  replace (subopt o + 1 + 1) with (subopt o + 2) in Hc by lia.
  assert (argv o !! (optind o + length sk + 1) = head rest) as Hnext.
  { rewrite <- Nat.add_assoc, <- lookup_drop, Hd.
    rewrite lookup_app_r by lia.
    replace (length sk + 1 - length sk) with 1 by lia. simpl.
    by rewrite head_lookup. }
  rewrite Hnext in Hc.
  split; [|split].
  - intros Hn. apply Ascii.eqb_neq in Hn. rewrite Hn in Hc. simpl in Hc.
    injection Hc as <- <-. simpl in *.
    assert (k = 1) as -> by lia. simpl. rewrite drop_0.
    repeat split; try done. lia.
  - intros Hn next rest' ->. rewrite Hn in Hc. simpl in Hc.
    injection Hc as <- <-. simpl in *.
    assert (k = 2) as -> by lia. simpl. rewrite drop_0.
    repeat split; try done. lia.
  - intros Hn ->. rewrite Hn in Hc. simpl in Hc.
    pose proof (optparse__error_frame) as Hf.
    pose proof (optparse__error_message) as Hm.
    match type of Hc with
    | optparse__error ?o0 ?m ?d = _ =>
        specialize (Hf o0 m d); specialize (Hm o0 m d)
    end.
    assert (r = char_lit "?") as -> by (by injection Hc as <- _).
    rewrite Hc in Hf, Hm. simpl in Hf, Hm.
    destruct Hf as (Ha & Hq & Hj & Ho & Hg & Hsub).
    assert (k = 1) as -> by lia. simpl.
    split; [done|]. split.
    { rewrite Hm by (unfold errmsg_size; simpl; lia).
      unfold str_of_char.
      assert (flag <> NUL) as Hnz
        by (apply (argtype_flag_not_NUL optstring); fold flag in Hty; lia).
      apply Ascii.eqb_neq in Hnz. fold flag. by rewrite Hnz. }
    split; [done|]. split; [done|]. split; [lia|].
    by rewrite app_nil_r.
Qed.







Lemma str_of_char_short c n :
  1 <= n -> substring 0 n (str_of_char c) = str_of_char c.
Proof.
  intros Hn. unfold str_of_char.
  destruct (Ascii.eqb c NUL); [by destruct n|].
  destruct n as [|n]; [lia|]. simpl. by destruct n.
Qed.







(** ** Long options *)

(** A name matches a token exactly when it is the token's key. *)
Lemma longopts_match_key name : forall opt,
  no_nul name = true -> no_nul opt = true ->
  optparse__longopts_match (Some name) opt = true <-> name = option_key opt.
Proof.
  unfold optparse__longopts_match.
  induction name as [|cn n IH]; intros [|ca a] Hn Ha;
    unfold longopts_match_loop; fold longopts_match_loop;
    unfold longopts_match_end, char_at; simpl in *.
  - done.
  - apply andb_true_iff in Ha as [Hca _]. apply negb_true_iff in Hca.
    rewrite Hca. simpl. destruct (ca =? "=")%char; split; done.
  - apply andb_true_iff in Hn as [Hcn _]. apply negb_true_iff in Hcn.
    rewrite Hcn. split; done.
  - apply andb_true_iff in Hn as [Hcn Hn]. apply negb_true_iff in Hcn.
    apply andb_true_iff in Ha as [Hca Ha].
    destruct (ca =? "=")%char eqn:Heq.
    { rewrite Hcn. split; done. }
    destruct (Ascii.eqb_spec ca cn) as [->|Hne]; simpl.
    + rewrite IH by done. split; [by intros ->|]. by intros [= ->].
    + split; [done|]. intros [= -> _]. done.
Qed.

Lemma no_nul_str_drop n : forall s, no_nul s = true -> no_nul (str_drop n s) = true.
Proof.
  induction n as [|n IH]; intros [|c s] Hs; try done.
  unfold str_drop; fold str_drop. apply IH.
  simpl in Hs. by apply andb_true_iff in Hs as [_ Hs].
Qed.

(** The scan accepts the first entry, before the terminator, whose name
    is the key of the token, and reports an invalid option when there is
    none. *)
Lemma optparse_long_scan_first t : forall i o opt li,
  Forall (fun e => forall n, longname e = Some n -> no_nul n = true)
    (table_entries t) ->
  no_nul opt = true ->
  optparse_long_scan t i o opt li =
    match first_named (option_key opt) (table_entries t) with
    | Some (j, e) => optparse_long_entry e (i + j) o opt li
    | None => (optparse__error o OPTPARSE_MSG_INVALID opt, li)
    end.
Proof.
  unfold first_named.
  induction t as [|e t IH]; intros i o opt li Ht Ho; [done|].
  unfold optparse_long_scan; fold optparse_long_scan. simpl in *.
  destruct (optparse_longopts_end e); [done|].
  apply Forall_cons in Ht as [He Ht]. simpl.
  destruct (longname e) as [n|] eqn:Hname.
  - pose proof (longopts_match_key n opt (He n eq_refl) Ho) as Hm.
    destruct (optparse__longopts_match (Some n) opt).
    + assert (n = option_key opt) as <- by by apply Hm.
      rewrite decide_True by done. simpl. by rewrite Nat.add_0_r.
    + rewrite decide_False by (intros [= Hk]; apply Hm in Hk; done).
      simpl. rewrite IH by done.
      destruct (list_find _ (table_entries t)) as [[j e']|]; simpl; [|done].
      by rewrite Nat.add_succ_r.
  - rewrite decide_False by done. simpl. rewrite IH by done.
    destruct (list_find _ (table_entries t)) as [[j e']|]; simpl; [|done].
    by rewrite Nat.add_succ_r.
Qed.

(** C5: a name matches a long-style token exactly when it is the whole of
    the token between its two dashes and the first ['='] or the end of the
    token; [optparse_long] accepts the first entry of the table that does,
    and reports an invalid option when none does; accepting an entry
    stores its index in the slot and its short equivalent in [optopt].
    With the table of the tests, ["--color=red"] is [color] with argument
    ["red"], ["--color"] is [color] without argument, and ["--colorful"]
    is invalid. *)
Theorem C5_long_exact_match :
  (forall name opt,
     no_nul name = true -> no_nul opt = true ->
     optparse__longopts_match (Some name) opt = true
     <-> name = option_key opt)
  /\ (forall o longopts longindex tok,
        argv o !! optind o = Some tok ->
        optparse__is_longopt (Some tok) = true ->
        no_nul tok = true ->
        Forall (fun e => forall n, longname e = Some n -> no_nul n = true)
          (table_entries longopts) ->
        let opt := str_drop 2 tok in
        let o1 := set_optind (optparse_reset o) (S (optind o)) in
        optparse_long o longopts longindex =
          match first_named (option_key opt) (table_entries longopts) with
          | Some (i, e) => optparse_long_entry e i o1 opt longindex
          | None => (optparse__error o1 OPTPARSE_MSG_INVALID opt, longindex)
          end)
  /\ (forall e i o opt v,
        (optparse_long_entry e i o opt (Some v)).2 = Some (Z.of_nat i)
        /\ optopt (optparse_long_entry e i o opt (Some v)).1.2 = shortname e)
  /\ (forall o,
        let run tok :=
          optparse_long (optparse_init o ["prog"; tok]) kLongopts (Some 0%Z) in
        ((run "--color=red").1.1, optarg (run "--color=red").1.2,
         (run "--color=red").2) = (char_lit "c", Some "red", Some 2%Z)
        /\ ((run "--color").1.1, optarg (run "--color").1.2,
            (run "--color").2) = (char_lit "c", None, Some 2%Z)
        /\ ((run "--colorful").1.1, errmsg (run "--colorful").1.2,
            (run "--colorful").2)
           = (char_lit "?", "invalid option -- 'colorful'", Some 0%Z)
        /\ optparse__longopts_match (Some "color") "colorful" = false).
Proof.
  split; [|split; [|split]].
  - intros. by apply longopts_match_key.
  - intros o longopts longindex tok Htok Hl Hn Ht opt o1.
    rewrite (optparse_long_at_longopt _ _ _ tok) by done.
    rewrite optparse_long_scan_first; [done|done|].
    by apply no_nul_str_drop.
  - intros e i o opt v. unfold optparse_long_entry, optparse__error.
    cbv zeta.
    destruct (argtype e), (optparse__longopts_arg opt); simpl; try done;
      destruct (argv o !! optind o); done.
  - intros o. vm_compute. repeat split.
Qed.

(** ** The short fallback of [optparse_long] *)

Lemma fallback_search_first t : forall i code,
  fallback_search t i code (-1)%Z =
    match first_short code (table_entries t) with
    | Some (j, _) => Z.of_nat (i + j)
    | None => (-1)%Z
    end.
Proof.
  unfold first_short.
  induction t as [|e t IH]; intros i code; simpl; [done|].
  destruct (optparse_longopts_end e); [done|]. simpl.
  destruct (Z.eqb_spec (shortname e) code) as [Heq|Hne].
  - rewrite decide_True by done. simpl. by rewrite Nat.add_0_r.
  - rewrite decide_False by done. simpl. rewrite IH.
    destruct (list_find _ (table_entries t)) as [[j e']|]; simpl; [|done].
    by rewrite Nat.add_succ_r.
Qed.

Lemma char_to_int_of_int z :
  (0 <= z < 128)%Z -> char_to_int (char_of_int z) = z.
Proof.
  intros Hz. unfold char_to_int, char_of_int. cbv zeta.
  rewrite N_ascii_embedding by lia. rewrite Z2N.id by lia.
  destruct (Z.leb_spec 128 z); [lia|]. done.
Qed.

(** A flag that the specification knows occurs in it and is no colon. *)
Lemma argtype_found optstring c :
  optparse__argtype optstring c <> (-1)%Z ->
  c <> ":"%char /\ In c (list_ascii_of_string optstring).
Proof.
  unfold optparse__argtype.
  destruct (Ascii.eqb_spec c ":") as [->|Hc]; [done|].
  intros H. split; [done|].
  induction optstring as [|d rest IH]; simpl in *; [done|].
  destruct (Ascii.eqb_spec c d) as [->|Hne]; [by left|]. right. by apply IH.
Qed.

Lemma in_colons c n : In c (list_ascii_of_string (colons n)) -> c = ":"%char.
Proof. induction n as [|n IH]; simpl; [done|]. intros [<-|H]; auto. Qed.

Lemma list_ascii_of_string_app s1 s2 :
  list_ascii_of_string (s1 +:+ s2)
  = list_ascii_of_string s1 ++ list_ascii_of_string s2.
Proof.
  induction s1 as [|c s1 IH]; [done|]. rewrite str_app_cons. simpl.
  by rewrite IH.
Qed.

(** The synthesized specification holds colons and the short equivalents
    of the entries, those between 1 and 126. *)
Lemma from_long_chars t c :
  In c (list_ascii_of_string (optparse__from_long t)) ->
  c = ":"%char
  \/ exists e, e ∈ table_entries t
              /\ (0 < shortname e < 127)%Z /\ c = char_of_int (shortname e).
Proof.
  induction t as [|e t IH]; simpl; [done|].
  destruct (optparse_longopts_end e); [done|].
  rewrite list_ascii_of_string_app. intros [H|H]%in_app_or.
  - destruct (Z.ltb_spec 0 (shortname e)); simpl in H; [|done].
    destruct (Z.ltb_spec (shortname e) 127); simpl in H; [|done].
    destruct H as [<-|H]; [|left; by eapply in_colons].
    right. exists e. split; [left|]. done.
  - destruct (IH H) as [->|(e' & He' & Hr & ->)]; [by left|].
    right. exists e'. split; [by right|done].
Qed.

(** What a call on a cluster returns: ['?'], or the flag, which the
    specification then knows. *)
Lemma optparse_cluster_result o s tok :
  let c := char_at (str_drop (subopt o + 1) tok) 0 in
  let '(r, o') := optparse_cluster o s tok in
  optopt o' = char_to_int c
  /\ (r = char_lit "?"
      \/ r = char_to_int c /\ optparse__argtype s c <> (-1)%Z).
Proof.
  intros c. unfold optparse_cluster. cbv zeta. fold c.
  by_argtype s c.
  - unfold optparse__error. simpl. auto.
  - destruct (negb _); simpl; auto.
  - destruct (negb _); [simpl; auto|].
    destruct (argv _ !! _); [simpl; auto|].
    unfold optparse__error. simpl. auto.
  - simpl. auto.
Qed.

Lemma list_find_elem_of_Some {A} (P : A -> Prop) `{!forall x, Decision (P x)}
  (l : list A) x :
  x ∈ l -> P x -> is_Some (list_find P l).
Proof.
  intros Hx HP. destruct (list_find P l) eqn:Hf; [done|].
  rewrite list_find_None in Hf. rewrite Forall_forall in Hf.
  by destruct (Hf x Hx).
Qed.

(** C7, as the code has it: when the token at the cursor is a short-style
    cluster, [optparse_long] with an index slot returns what [optparse]
    returns for the specification synthesized from the table; the option
    character that call records in [optopt] is the current flag of the
    cluster; and the slot receives the index of the first entry whose
    short equivalent is that character, and -1 exactly when no entry has
    it.  This holds too when the delegated call signalled an error: the
    slot is then -1 only if no entry has the offending flag as its short
    equivalent.  When the call did not return ['?'], such an entry exists
    and its short equivalent is the character returned. *)
Theorem C7_long_fallback_index o longopts v tok :
  argv o !! optind o = Some tok ->
  optparse__is_shortopt (Some tok) = true ->
  let '(r, o', li) := optparse_long o longopts (Some v) in
  (r, o') = optparse o (optparse__from_long longopts)
  /\ li = Some (match first_short (optopt o') (table_entries longopts) with
                | Some (i, _) => Z.of_nat i
                | None => (-1)%Z
                end)
  /\ (r <> char_lit "?" ->
      exists i e,
        first_short (optopt o') (table_entries longopts) = Some (i, e)
        /\ shortname e = r /\ li = Some (Z.of_nat i))
  /\ optopt o' = char_to_int (char_at tok (subopt o + 1))
  /\ (li = Some (-1)%Z
      <-> Forall (fun e => shortname e <> optopt o')
            (table_entries longopts)).
Proof.
  intros Htok Hs.
  rewrite optparse_long_unfold, Htok, (shortopt_not_dashdash _ Hs), Hs.
  unfold optparse__long_fallback.
  rewrite (optparse_here_cluster _ _ tok) by done.
  pose proof (optparse_cluster_result (optparse_reset o)
                (optparse__from_long longopts) tok) as H.
  cbv zeta in H.
  destruct (optparse_cluster _ _ _) as [r o']. destruct H as [Hopt Hr].
  set (c := char_at (str_drop (subopt (optparse_reset o) + 1) tok) 0) in *.
  assert (r = char_to_int c -> optparse__argtype (optparse__from_long longopts) c <> (-1)%Z ->
          exists e, e ∈ table_entries longopts
                    /\ (0 < shortname e < 127)%Z /\ r = shortname e)
    as Hfound.
  { intros -> Hty. apply argtype_found in Hty as [Hc Hin].
    apply from_long_chars in Hin as [->|(e & He & Hrange & ->)]; [done|].
    exists e. rewrite char_to_int_of_int by lia. done. }
  assert (r <> (-1)%Z) as Hne.
  { destruct Hr as [->|[Hr Hty]]; [done|].
    destruct (Hfound Hr Hty) as (e & _ & Hrange & ->). lia. }
  apply Z.eqb_neq in Hne. rewrite Hne. simpl.
  rewrite fallback_search_first. simpl.
  split; [done|]. split; [done|]. split; [|split].
  - intros Hq. destruct Hr as [->|[Hr Hty]]; [done|].
    destruct (Hfound Hr Hty) as (e & He & _ & Hre).
    destruct (list_find_elem_of_Some (fun e => shortname e = optopt o')
                (table_entries longopts) e He) as [[i e0] Hf].
    { rewrite Hopt. congruence. }
    unfold first_short. rewrite Hf. exists i, e0.
    apply list_find_Some in Hf as (_ & Hsn & _).
    split; [done|]. split; [|done]. rewrite Hsn, Hopt. congruence.
  - rewrite Hopt. unfold c. rewrite char_at_str_drop, Nat.add_0_r. done.
  - unfold first_short.
    destruct (list_find _ (table_entries longopts)) as [[i e]|] eqn:Hf.
    + split; [intros [= Hi]; lia|].
      intros Hall. apply list_find_Some in Hf as (Hl & Hsn & _).
      apply list_elem_of_lookup_2 in Hl.
      rewrite Forall_forall in Hall. by destruct (Hall e Hl).
    + split; [|done]. intros _. by apply list_find_None in Hf.
Qed.

Lemma optparse_long_scan_nomatch t opt : forall i o li,
  Forall (fun e => optparse__longopts_match (longname e) opt = false)
    (table_entries t) ->
  optparse_long_scan t i o opt li
  = (optparse__error o OPTPARSE_MSG_INVALID opt, li).
Proof.
  induction t as [|e t IH]; intros i o li Ht; [done|].
  unfold optparse_long_scan; fold optparse_long_scan. simpl in Ht.
  destruct (optparse_longopts_end e); [done|].
  apply Forall_cons in Ht as [He Ht]. rewrite He. simpl. by apply IH.
Qed.

Lemma optparse_long_scan_slot t opt : forall i o li,
  (optparse_long_scan t i o opt li).2 <> li ->
  exists e, e ∈ table_entries t
            /\ optparse__longopts_match (longname e) opt = true.
Proof.
  induction t as [|e t IH]; intros i o li; [done|].
  unfold optparse_long_scan; fold optparse_long_scan. simpl.
  destruct (optparse_longopts_end e); [done|].
  destruct (optparse__longopts_match (longname e) opt) eqn:Hm; simpl.
  - intros _. exists e. split; [left|done].
  - intros H. destruct (IH _ _ _ H) as (e' & He' & Hm').
    exists e'. split; [by right|done].
Qed.

(** C10: [optparse_long] leaves the index slot as it was when the token
    at the cursor is absent, is ["--"], is a non-option in strict mode, or
    is a long-style token that no entry of the table matches (the call
    then reports an invalid option).  When a call changes the slot, the
    first token past the non-options it steps over is a short-style
    cluster or a long-style token that an entry of the table matches. *)
Theorem C10_longindex_frame :
  (forall o longopts li,
     argv o !! optind o = None ->
     optparse_long o longopts li = ((-1)%Z, o, li))
  /\ (forall o longopts li,
        argv o !! optind o = Some "--" ->
        (optparse_long o longopts li).1.1 = (-1)%Z
        /\ (optparse_long o longopts li).2 = li)
  /\ (forall o longopts li tok,
        argv o !! optind o = Some tok ->
        nonoption_long tok = true ->
        permute o = 0%Z ->
        optparse_long o longopts li = ((-1)%Z, o, li))
  /\ (forall o longopts li tok,
        argv o !! optind o = Some tok ->
        optparse__is_longopt (Some tok) = true ->
        Forall (fun e =>
                  optparse__longopts_match (longname e) (str_drop 2 tok)
                  = false) (table_entries longopts) ->
        (optparse_long o longopts li).1.1 = char_lit "?"
        /\ (optparse_long o longopts li).2 = li)
  /\ (forall o longopts li,
        (optparse_long o longopts li).2 <> li ->
        exists sk tok rest,
          drop (optind o) (argv o) = sk ++ tok :: rest
          /\ Forall (fun t => nonoption_long t = true) sk
          /\ (sk = [] \/ permute o <> 0%Z)
          /\ (optparse__is_shortopt (Some tok) = true
              \/ optparse__is_longopt (Some tok) = true
                 /\ exists e,
                      e ∈ table_entries longopts
                      /\ optparse__longopts_match (longname e)
                           (str_drop 2 tok) = true)).
Proof.
  split; [|split; [|split; [|split]]].
  - intros o longopts li Htok. by rewrite optparse_long_unfold, Htok.
  - intros o longopts li Htok. by rewrite optparse_long_unfold, Htok.
  - intros o longopts li tok Htok Hn Hp.
    by apply (optparse_long_strict_stop _ _ _ tok).
  - intros o longopts li tok Htok Hl Hno.
    rewrite (optparse_long_at_longopt _ _ _ tok) by done.
    by rewrite optparse_long_scan_nomatch.
  - intros o longopts li Hli.
    destruct (optparse_long_stops longopts li o)
      as (s & x & r & li' & o1 & k & Hd & Hp & Hs & _ & Hh & Ho).
    rewrite Ho in Hli. simpl in Hli. clear Ho.
    unfold optparse_long_here in Hh. simpl in Hh.
    destruct (argv o !! (optind o + length s)) as [tok|] eqn:Htok;
      [|by simplify_eq].
    assert (exists rest, x = tok :: rest) as [rest ->].
    { rewrite <- lookup_drop, Hd, lookup_app_r, Nat.sub_diag in Htok by lia.
      destruct x as [|t rest]; [done|]. injection Htok as ->. by exists rest. }
    exists s, tok, rest. split; [done|]. split; [done|]. split; [done|].
    destruct (optparse__is_dashdash (Some tok)); [by simplify_eq|].
    destruct (optparse__is_shortopt (Some tok)); [by left|].
    destruct (optparse__is_longopt (Some tok)); simpl in Hh;
      [|by simplify_eq].
    right. split; [done|].
    apply (optparse_long_scan_slot longopts (str_drop 2 tok) 0
             (set_optind (optparse_reset (set_optind o (optind o + length s)))
                (S (optind o + length s))) li).
    by rewrite Hh.
Qed.

(** C6, where the code departs from it: [optparse_long] returns -1
    without touching the message when the token at the cursor is absent,
    is ["--"], or is a non-option in strict mode, so a message left by an
    earlier call stays.  Over [prog --foo] the first call reports the
    invalid option; the second finds no token and returns -1, and the
    message of the first call is still there.  [optparse], called instead
    on that state, returns -1 and clears the message. *)
Theorem C6_long_done_keeps_stale_message :
  (forall o longopts li tok,
     argv o !! optind o = None
     \/ argv o !! optind o = Some "--"
     \/ argv o !! optind o = Some tok
        /\ nonoption_long tok = true /\ permute o = 0%Z ->
     (optparse_long o longopts li).1.1 = (-1)%Z
     /\ errmsg (optparse_long o longopts li).1.2 = errmsg o)
  /\ (forall o,
        let o0 := optparse_init o ["prog"; "--foo"] in
        let '(r1, o1, _) := optparse_long o0 kLongopts None in
        let '(r2, o2, _) := optparse_long o1 kLongopts None in
        let '(r3, o3) := optparse o1 "" in
        (r1, errmsg o1) = (char_lit "?", "invalid option -- 'foo'")
        /\ (r2, errmsg o2) = ((-1)%Z, "invalid option -- 'foo'")
        /\ (r3, errmsg o3) = ((-1)%Z, "")).
Proof.
  split.
  - intros o longopts li tok [Htok|[Htok|(Htok & Hn & Hp)]].
    + by rewrite optparse_long_unfold, Htok.
    + by rewrite optparse_long_unfold, Htok.
    + by rewrite (optparse_long_strict_stop _ _ _ tok).
  - intros o. vm_compute. repeat split.
Qed.

(** ** Sequences of calls *)

Lemma all_short_map cs :
  forallb is_short cs = true -> exists specs, cs = NextShort <$> specs.
Proof.
  induction cs as [|[optstring|t li] cs IH]; simpl; intros H.
  - by exists [].
  - destruct (IH H) as [specs ->]. by exists (optstring :: specs).
  - done.
Qed.

Lemma all_long_map cs :
  forallb is_long cs = true ->
  exists ps, cs = (fun p : list optparse_long_t * option Z =>
                     NextLong p.1 p.2) <$> ps.
Proof.
  induction cs as [|[optstring|t li] cs IH]; simpl; intros H.
  - by exists [].
  - done.
  - destruct (IH H) as [ps ->]. by exists ((t, li) :: ps).
Qed.

Lemma run_calls_short specs : forall o,
  run_calls (NextShort <$> specs) o = run_scan scan_short specs o.
Proof. induction specs as [|s specs IH]; intros o; [done|]. apply IH. Qed.

Lemma run_calls_long ps : forall o,
  run_calls ((fun p : list optparse_long_t * option Z =>
                NextLong p.1 p.2) <$> ps) o
  = run_scan scan_long ps o.
Proof.
  induction ps as [|p ps IH]; intros o; [done|].
  simpl. rewrite IH. f_equal. unfold scan_long.
  by destruct (optparse_long o p.1 p.2) as [[r o'] li].
Qed.

Lemma block_move_facts (a a' : list string) n n' s c r :
  drop n a = s ++ c ++ r ->
  a' = take n a ++ c ++ s ++ r ->
  n' = n + length c ->
  a' ≡ₚ a
  /\ length a' = length a
  /\ take n a' = take n a
  /\ n <= n'
  /\ (n <= length a -> n' <= length a').
Proof.
  intros Hd -> ->.
  assert (take n a ++ c ++ s ++ r ≡ₚ a) as Hperm.
  { trans (take n a ++ drop n a); [|by rewrite take_drop].
    rewrite Hd. apply Permutation_app_head. rewrite !app_assoc.
    apply Permutation_app_tail, Permutation_app_comm. }
  split; [done|]. split; [by apply Permutation_length|].
  split.
  - destruct (decide (n <= length a)) as [Hle|Hgt].
    + apply take_app_length'. by rewrite length_take_le.
    + rewrite drop_ge in Hd by lia. symmetry in Hd.
      apply app_eq_nil in Hd as [-> Hd]. apply app_eq_nil in Hd as [-> ->].
      by rewrite !app_nil_r, take_take, Nat.min_id.
  - split; [lia|]. intros Hle.
    rewrite !length_app, length_take_le by done.
    assert (length (drop n a) = length a - n) as Hl by apply length_drop.
    rewrite Hd, !length_app in Hl. lia.
Qed.

Lemma optparse_moves s o :
  exists sk c r,
    drop (optind o) (argv o) = sk ++ c ++ r
    /\ Forall (fun t => nonoption_short t = true) sk
    /\ argv (optparse o s).2 = take (optind o) (argv o) ++ c ++ sk ++ r
    /\ optind (optparse o s).2 = optind o + length c
    /\ permute (optparse o s).2 = permute o.
Proof.
  destruct (scan_moves nonoption_short optparse_here scan_short
              scan_short_unfold
              (fun p o => proj1 (optparse_here_frame p o))
              (fun p o => proj1 (proj2 (optparse_here_frame p o)))
              (fun p o => proj2 (proj2 (optparse_here_frame p o))) s o)
    as (sk & c & r & Hd & Hs & _ & Ha & Hi & Hp).
  exists sk, c, r. done.
Qed.

Lemma optparse_long_moves t li o :
  exists sk c r,
    drop (optind o) (argv o) = sk ++ c ++ r
    /\ Forall (fun t => nonoption_long t = true) sk
    /\ argv (optparse_long o t li).1.2
       = take (optind o) (argv o) ++ c ++ sk ++ r
    /\ optind (optparse_long o t li).1.2 = optind o + length c
    /\ permute (optparse_long o t li).1.2 = permute o.
Proof.
  destruct (scan_moves nonoption_long here_long scan_long scan_long_unfold
              (fun p o => proj1 (here_long_frame p o))
              (fun p o => proj1 (proj2 (here_long_frame p o)))
              (fun p o => proj2 (proj2 (here_long_frame p o))) (t, li) o)
    as (sk & c & r & Hd & Hs & _ & Ha & Hi & Hp).
  exists sk, c, r. unfold scan_long in *. simpl in *.
  destruct (optparse_long o t li) as [[r' o'] li']. done.
Qed.

(** ** Any sequence of calls keeps the remaining tokens in order *)

Lemma remaining_kept_refl o : remaining_kept o o.
Proof. unfold remaining_kept. done. Qed.

Lemma remaining_kept_trans o1 o2 o3 :
  remaining_kept o1 o2 -> remaining_kept o2 o3 -> remaining_kept o1 o3.
Proof.
  intros (Hs1 & Ht1 & Hp1 & Hi1) (Hs2 & Ht2 & Hp2 & Hi2).
  split; [by trans (drop (optind o2) (argv o2))|].
  split; [|split; [by trans (argv o2)|lia]].
  rewrite <- Ht1.
  replace (optind o1) with (optind o1 `min` optind o2) by lia.
  by rewrite <- !take_take, Ht2.
Qed.

Lemma block_move_remaining o o' s c r :
  drop (optind o) (argv o) = s ++ c ++ r ->
  argv o' = take (optind o) (argv o) ++ c ++ s ++ r ->
  optind o' = optind o + length c ->
  remaining_kept o o'.
Proof.
  intros Hd Ha Hi.
  destruct (block_move_facts _ _ _ _ _ _ _ Hd Ha Hi)
    as (Hperm & _ & Htake & Hle & _).
  split; [|done].
  rewrite Hd, Ha, Hi.
  destruct (decide (optind o <= length (argv o))) as [Hn|Hn].
  - rewrite drop_after_block by done.
    apply sublist_app; [done|]. by apply sublist_inserts_l.
  - rewrite drop_ge in Hd by lia. symmetry in Hd.
    apply app_eq_nil in Hd as [-> Hd]. apply app_eq_nil in Hd as [-> ->].
    rewrite drop_ge; [done|].
    rewrite !app_nil_r, length_take. simpl. lia.
Qed.

Lemma do_call_remaining c o : remaining_kept o (do_call c o).
Proof.
  destruct c as [s|t li]; simpl.
  - destruct (optparse_moves s o) as (sk & c & r & Hd & _ & Ha & Hi & _).
    by apply (block_move_remaining _ _ sk c r).
  - destruct (optparse_long_moves t li o)
      as (sk & c & r & Hd & _ & Ha & Hi & _).
    by apply (block_move_remaining _ _ sk c r).
Qed.

Lemma run_calls_remaining cs : forall o, remaining_kept o (run_calls cs o).
Proof.
  induction cs as [|c cs IH]; intros o; [apply remaining_kept_refl|].
  apply (remaining_kept_trans _ (do_call c o)); [apply do_call_remaining|].
  apply IH.
Qed.

(** C2, as the code has it.  After any sequence of calls of [optparse]
    and [optparse_long], mixed or not, the tokens left from the cursor on
    are in the order they had, the tokens before the first cursor are
    where they were, and the array holds the same tokens.  With
    permutation on, after any sequence of calls of [optparse] alone, or
    of [optparse_long] alone, the tokens consumed since lie between the
    first cursor and the last, the others follow, and either group is in
    the order it had in the array.  Over
    [prog positional1 --flag positional2], [optparse_long] returns the
    flag, then -1, and draining then returns [positional1] and
    [positional2], in this order. *)
Theorem C2_permutation_keeps_order :
  (forall cs o,
     permute o <> 0%Z ->
     same_scanner cs = true ->
     stable_partition o (run_calls cs o))
  /\ (forall cs o, remaining_kept o (run_calls cs o))
  /\ (forall o,
        let o0 :=
          optparse_init o ["prog"; "positional1"; "--flag"; "positional2"] in
        let table :=
          [mk_long (Some "flag") (char_lit "f") OPTPARSE_NONE;
           mk_long None 0 OPTPARSE_NONE] in
        let '(r1, o1, _) := optparse_long o0 table None in
        let '(r2, o2, _) := optparse_long o1 table None in
        r1 = char_lit "f" /\ r2 = (-1)%Z
        /\ unconsumed_args o2 = ["positional1"; "positional2"]).
Proof.
  split; [|split].
  - intros cs o Hp Hcs. apply orb_true_iff in Hcs as [Hs|Hl].
    + destruct (all_short_map cs Hs) as [specs ->].
      rewrite run_calls_short.
      apply (run_scan_stable_partition nonoption_short optparse_here
               scan_short scan_short_unfold
               (fun p o => proj1 (optparse_here_frame p o))
               (fun p o => proj1 (proj2 (optparse_here_frame p o)))
               (fun p o => proj2 (proj2 (optparse_here_frame p o)))).
      done.
    + destruct (all_long_map cs Hl) as [ps ->].
      rewrite run_calls_long.
      apply (run_scan_stable_partition nonoption_long here_long
               scan_long scan_long_unfold
               (fun p o => proj1 (here_long_frame p o))
               (fun p o => proj1 (proj2 (here_long_frame p o)))
               (fun p o => proj2 (proj2 (here_long_frame p o)))).
      done.
  - intros cs o. apply run_calls_remaining.
  - intros o. vm_compute. repeat split.
Qed.

(** * Further properties of the code *)

(** ** What every call keeps *)

(** What moving a consumed block [c] in front of a skipped block [s]
    keeps. *)
(** X1: whatever the state and the arguments, a call of [optparse], of
    [optparse_long] or of [optparse_arg] leaves a rearrangement of the
    same tokens (none is lost, added or repeated), does not touch the
    tokens before the cursor, never moves the cursor back, keeps it within
    the array when it was, and leaves the permutation toggle alone. *)
Theorem X1_calls_keep_tokens_and_cursor :
  let kept (o o' : optparse_t) :=
    argv o' ≡ₚ argv o
    /\ length (argv o') = length (argv o)
    /\ take (optind o) (argv o') = take (optind o) (argv o)
    /\ optind o <= optind o'
    /\ (optind o <= length (argv o) -> optind o' <= length (argv o'))
    /\ permute o' = permute o in
  (forall o optstring, kept o (optparse o optstring).2)
  /\ (forall o longopts longindex,
        kept o (optparse_long o longopts longindex).1.2)
  /\ (forall o, kept o (optparse_arg o).2).
Proof.
  intros kept. split; [|split].
  - intros o optstring.
    destruct (optparse_moves optstring o) as (sk & c & r & Hd & _ & Ha & Hi & Hp).
    destruct (block_move_facts _ _ _ _ _ _ _ Hd Ha Hi) as (? & ? & ? & ? & ?).
    unfold kept. done.
  - intros o longopts longindex.
    destruct (optparse_long_moves longopts longindex o)
      as (sk & c & r & Hd & _ & Ha & Hi & Hp).
    destruct (block_move_facts _ _ _ _ _ _ _ Hd Ha Hi) as (? & ? & ? & ? & ?).
    unfold kept. done.
  - intros o. unfold kept, optparse_arg.
    destruct (argv o !! optind o) as [t|] eqn:Ht; simpl.
    + apply lookup_lt_Some in Ht. repeat split; try done; lia.
    + repeat split; done.
Qed.

(** X2: when the tokens at [index] and after it, up to the cursor, are
    [t] and then [mid], [optparse__permute] puts [mid] first and [t]
    right before the cursor; the tokens before [index] and from the
    cursor on, and the other fields of the state, are as they were. *)
Theorem X2_permute_rotates_one_token o index pre t mid post :
  argv o = pre ++ t :: mid ++ post ->
  index = length pre ->
  optind o = S (index + length mid) ->
  let o' := optparse__permute o index in
  argv o' = pre ++ mid ++ t :: post
  /\ argv o' !! (optind o - 1) = Some t
  /\ (permute o', optind o', optopt o', optarg o', errmsg o', subopt o')
     = (permute o, optind o, optopt o, optarg o, errmsg o, subopt o).
Proof.
  intros Ha Hi Ho o'. unfold o'.
  rewrite (permute_rotate o index pre t mid post Ha Hi Ho). simpl.
  split; [done|]. split; [|done].
  rewrite Ho, Hi. rewrite app_assoc.
  replace (S (length pre + length mid) - 1) with (length (pre ++ mid))
    by (rewrite length_app; lia).
  by rewrite list_lookup_middle.
Qed.

(** ** When only non-options are left, and strict mode *)

Lemma lookup_past_drop (l : list string) n :
  l !! (n + length (drop n l)) = None.
Proof. apply lookup_ge_None. rewrite length_drop. lia. Qed.

(** X3: when every token from the cursor on is a non-option (none may be
    left), [optparse] returns -1 and [optparse_long] returns -1, in either
    mode; the array and the cursor stay as they were, so the same call
    made again returns -1 again.  [optparse] clears its three result
    fields, [optparse_long] changes nothing at all. *)
Theorem X3_only_non_options_left :
  (forall o optstring,
     Forall (fun t => nonoption_short t = true) (drop (optind o) (argv o)) ->
     optparse o optstring = ((-1)%Z, optparse_reset o)
     /\ optparse (optparse o optstring).2 optstring
        = optparse o optstring)
  /\ (forall o longopts longindex,
        Forall (fun t => nonoption_long t = true)
          (drop (optind o) (argv o)) ->
        optparse_long o longopts longindex = ((-1)%Z, o, longindex)).
Proof.
  split.
  - assert (forall o optstring,
              Forall (fun t => nonoption_short t = true)
                (drop (optind o) (argv o)) ->
              optparse o optstring = ((-1)%Z, optparse_reset o)) as Hdone.
    { intros o optstring Hall.
      destruct (decide (permute o = 0%Z)) as [H0|Hp].
      - rewrite optparse_unfold. cbv zeta.
        destruct (argv o !! optind o) as [t|] eqn:Ht; [|done].
        assert (nonoption_short t = true) as Hn.
        { rewrite Forall_forall in Hall. apply Hall.
          apply list_elem_of_lookup. exists 0.
          by rewrite lookup_drop, Nat.add_0_r. }
        unfold nonoption_short in Hn.
        apply andb_true_iff in Hn as [Hd Hs].
        apply negb_true_iff in Hd, Hs. by rewrite Hd, Hs, H0.
      - destruct (optparse_skips optstring (drop (optind o) (argv o)) o [])
          as (r & o1 & k & Hh & Hi & Hk & ->).
        { by rewrite app_nil_r. }
        { by right. }
        { done. }
        { right. by left. }
        unfold optparse_here in Hh. cbv zeta in Hh. simpl in Hh.
        rewrite lookup_past_drop in Hh. injection Hh as <- <-.
        simpl in Hk. assert (k = 0) as -> by lia. simpl.
        rewrite app_nil_r, take_drop, Nat.add_0_r.
        by destruct o. }
    intros o optstring Hall. split; [by apply Hdone|].
    rewrite (Hdone o optstring Hall). simpl.
    rewrite (Hdone (optparse_reset o)) by done. by destruct o.
  - intros o longopts longindex Hall.
    destruct (decide (permute o = 0%Z)) as [H0|Hp].
    + destruct (argv o !! optind o) as [t|] eqn:Ht;
        [|by rewrite optparse_long_unfold, Ht].
      assert (nonoption_long t = true) as Hn.
      { rewrite Forall_forall in Hall. apply Hall.
        apply list_elem_of_lookup. exists 0.
        by rewrite lookup_drop, Nat.add_0_r. }
      by apply (optparse_long_strict_stop _ _ _ t).
    + destruct (scan_skips nonoption_long here_long scan_long
                  scan_long_unfold
                  (fun p o => proj1 (here_long_frame p o))
                  (fun p o => proj2 (proj2 (here_long_frame p o)))
                  (longopts, longindex) (drop (optind o) (argv o)) o [])
        as ([r li] & o1 & k & Hh & Hi & Hk & Ho).
      { by rewrite app_nil_r. }
      { by right. }
      { done. }
      { right. by left. }
      unfold here_long, optparse_long_here in Hh. simpl in Hh.
      rewrite lookup_past_drop in Hh. injection Hh as <- <- <-.
      simpl in Hk. assert (k = 0) as -> by lia.
      unfold scan_long in Ho. simpl in Ho.
      destruct (optparse_long o longopts longindex) as [[r' o'] li'].
      injection Ho as -> -> ->. simpl.
      rewrite app_nil_r, take_drop, Nat.add_0_r.
      by destruct o.
Qed.

(** X4: in strict mode ([permute] is 0) no call changes the array. *)
Theorem X4_strict_mode_keeps_array o optstring longopts longindex :
  permute o = 0%Z ->
  argv (optparse o optstring).2 = argv o
  /\ argv (optparse_long o longopts longindex).1.2 = argv o.
Proof.
  intros H0. split.
  - destruct (optparse_stops optstring o)
      as (sk & x & r & o1 & k & Hd & [->|Hp] & _ & _ & _ & ->); [|done].
    simpl in *. by rewrite take_drop, <- Hd, take_drop.
  - destruct (optparse_long_stops longopts longindex o)
      as (sk & x & r & li & o1 & k & Hd & [->|Hp] & _ & _ & _ & ->); [|done].
    simpl in *. by rewrite take_drop, <- Hd, take_drop.
Qed.


(** ** The short option specification *)

Lemma optstring_seek_none optstring c :
  optstring_seek optstring c = "" <-> ~ In c (list_ascii_of_string optstring).
Proof.
  induction optstring as [|d rest IH]; simpl; [tauto|].
  destruct (Ascii.eqb_spec c d) as [->|Hne].
  - split; [done|]. intros H. exfalso. apply H. by left.
  - rewrite IH. split.
    + intros H [Hd|Hin]; [by subst|done].
    + intros H Hin. apply H. by right.
Qed.

Lemma optstring_seek_app_skip a b c :
  ~ In c (list_ascii_of_string a) ->
  optstring_seek (a +:+ b) c = optstring_seek b c.
Proof.
  induction a as [|d a IH]; intros Hn; [done|].
  rewrite str_app_cons. simpl in *.
  destruct (Ascii.eqb_spec c d) as [->|Hne].
  - exfalso. apply Hn. by left.
  - apply IH. intros H. apply Hn. by right.
Qed.

Lemma argtype_app_skip a b c :
  ~ In c (list_ascii_of_string a) ->
  optparse__argtype (a +:+ b) c = optparse__argtype b c.
Proof.
  intros Hn. unfold optparse__argtype. by rewrite optstring_seek_app_skip.
Qed.

Lemma argtype_at_head c tail :
  c <> ":"%char -> c <> NUL ->
  optparse__argtype (String c tail) c
  = if (char_at tail 0 =? ":")%char
    then (if (char_at tail 1 =? ":")%char then 2%Z else 1%Z)
    else 0%Z.
Proof.
  intros Hc Hz. unfold optparse__argtype. simpl.
  apply Ascii.eqb_neq in Hc, Hz. rewrite Hc, Ascii.eqb_refl.
  unfold char_at. simpl. by rewrite Hz.
Qed.

(** X5: [optparse__argtype] returns -1 exactly for the colon, for the
    terminator and for a character that does not occur in the
    specification.  For any other character its first occurrence decides:
    the result is 2 when two colons follow it, 1 when one colon does and
    0 otherwise, whatever comes later in the specification. *)
Theorem X5_argtype_reads_first_occurrence :
  (forall optstring c,
     optparse__argtype optstring c = (-1)%Z
     <-> c = ":"%char \/ c = NUL
         \/ ~ In c (list_ascii_of_string optstring))
  /\ (forall pre c tail,
        c <> ":"%char -> c <> NUL ->
        ~ In c (list_ascii_of_string pre) ->
        optparse__argtype (pre +:+ String c tail) c
        = if (char_at tail 0 =? ":")%char
          then (if (char_at tail 1 =? ":")%char then 2%Z else 1%Z)
          else 0%Z).
Proof.
  split.
  - intros optstring c. split.
    + intros H.
      destruct (Ascii.eqb_spec c ":") as [?|Hc]; [by left|]. right.
      destruct (Ascii.eqb_spec c NUL) as [?|Hz]; [by left|]. right.
      apply optstring_seek_none.
      destruct (optstring_seek_head optstring c) as [?|[rest Hs]]; [done|].
      exfalso. revert H. unfold optparse__argtype.
      apply Ascii.eqb_neq in Hc, Hz. rewrite Hc, Hs.
      unfold char_at. simpl. rewrite Hz.
      by repeat destruct (_ =? ":")%char.
    + intros [->|[->|Hn]]; [done|apply argtype_NUL|].
      unfold optparse__argtype. apply optstring_seek_none in Hn.
      rewrite Hn. by destruct (c =? ":")%char.
  - intros pre c tail Hc Hz Hn.
    rewrite argtype_app_skip by done. by apply argtype_at_head.
Qed.

(** ** The specification synthesized from a table *)

Lemma char_of_int_inj a b :
  (0 < a < 127)%Z -> (0 < b < 127)%Z ->
  char_of_int a = char_of_int b -> a = b.
Proof.
  intros Ha Hb H. apply (f_equal char_to_int) in H.
  by rewrite !char_to_int_of_int in H by lia.
Qed.

Lemma colon_of_int : char_of_int 58 = ":"%char.
Proof. reflexivity. Qed.

(** The piece an entry contributes to the synthesized specification. *)
Lemma from_long_cons e t :
  optparse_longopts_end e = false ->
  optparse__from_long (e :: t)
  = (if (0 <? shortname e)%Z && (shortname e <? 127)%Z
     then String (char_of_int (shortname e))
            (colons (argtype_value (argtype e)))
     else "") +:+ optparse__from_long t.
Proof. intros He. simpl. by rewrite He. Qed.

Lemma from_long_no_leading_colon t :
  Forall (fun e => shortname e <> 58%Z) (table_entries t) ->
  char_at (optparse__from_long t) 0 <> ":"%char.
Proof.
  induction t as [|e t IH]; intros Ht; [done|]. simpl in *.
  destruct (optparse_longopts_end e); [done|].
  apply Forall_cons in Ht as [He Ht].
  destruct (Z.ltb_spec 0 (shortname e)); simpl; [|by apply IH].
  destruct (Z.ltb_spec (shortname e) 127); simpl; [|by apply IH].
  rewrite str_app_cons. unfold char_at. simpl.
  rewrite <- colon_of_int. intros Heq.
  apply char_of_int_inj in Heq; [done|lia|lia].
Qed.

(** X6: when no entry of the table has the colon as its short equivalent,
    the specification that [optparse__from_long] builds gives a
    character between 1 and 126 the argument kind of the first entry
    that has it as its short equivalent (0 for none, 1 for required, 2
    for optional), and knows no character that no such entry has. *)
Theorem X6_from_long_keeps_argument_kinds :
  (forall t sn i e,
     Forall (fun e => shortname e <> 58%Z) (table_entries t) ->
     (0 < sn < 127)%Z ->
     first_short sn (table_entries t) = Some (i, e) ->
     optparse__argtype (optparse__from_long t) (char_of_int sn)
     = Z.of_nat (argtype_value (argtype e)))
  /\ (forall t c,
        (forall e, e ∈ table_entries t ->
                   (0 < shortname e < 127)%Z ->
                   char_of_int (shortname e) <> c) ->
        optparse__argtype (optparse__from_long t) c = (-1)%Z).
Proof.
  split.
  - unfold first_short.
    induction t as [|e' t IH]; intros sn i e Ht Hsn Hf; [done|].
    assert (sn <> 58%Z) as Hsn58.
    { pose proof Hf as Hf'.
      apply list_find_Some in Hf' as (Hl & Hs & _).
      apply list_elem_of_lookup_2 in Hl.
      rewrite Forall_forall in Ht. specialize (Ht e Hl). congruence. }
    simpl in Ht, Hf.
    destruct (optparse_longopts_end e') eqn:Hend; [done|].
    rewrite from_long_cons by done.
    apply Forall_cons in Ht as [He' Ht]. simpl in Hf.
    assert (char_of_int sn <> ":"%char) as Hcolon.
    { rewrite <- colon_of_int. intros H.
      apply char_of_int_inj in H; [done|lia|lia]. }
    assert (char_of_int sn <> NUL) as Hnul.
    { change NUL with (char_of_int 0). intros H.
      apply (f_equal char_to_int) in H.
      rewrite char_to_int_of_int in H by lia.
      rewrite char_to_int_of_int in H by lia. lia. }
    destruct (decide (shortname e' = sn)) as [Heq|Hne].
    + simpl in Hf. injection Hf as <- <-. rewrite Heq.
      destruct (Z.ltb_spec 0 sn); [|lia].
      destruct (Z.ltb_spec sn 127); [|lia]. simpl.
      rewrite str_app_cons, argtype_at_head by done.
      pose proof (from_long_no_leading_colon t Ht) as Hhead.
      apply Ascii.eqb_neq in Hhead.
      destruct (argtype e'); simpl colons; rewrite ?str_app_cons, ?str_app_nil_l;
        unfold char_at in *; simpl; by rewrite ?Hhead.
    + simpl in Hf.
      destruct (list_find _ (table_entries t)) as [[j e0]|] eqn:Hfind;
        [|done].
      simpl in Hf. injection Hf as <- <-.
      rewrite argtype_app_skip; [by eapply IH|].
      destruct (Z.ltb_spec 0 (shortname e')); simpl; [|tauto].
      destruct (Z.ltb_spec (shortname e') 127); simpl; [|tauto].
      intros [Hc|Hc].
      * apply char_of_int_inj in Hc; [done|lia|lia].
      * apply in_colons in Hc. done.
  - intros t c Hno.
    destruct (Z.eq_dec (optparse__argtype (optparse__from_long t) c) (-1)%Z)
      as [?|Hne]; [done|].
    apply argtype_found in Hne as [Hc Hin].
    apply from_long_chars in Hin as [?|(e & He & Hr & ->)]; [done|].
    by destruct (Hno e He Hr).
Qed.

(** ** The value of a long option *)

(** X7: [optparse__longopts_arg] splits a token at its first ['=']: it
    returns the text after it, and NULL exactly when the token has none.
    The text before it, the ['='] and the value make up the token again,
    and a token made of a key without ['='], an ['='] and a value gives
    the value back. *)
Theorem X7_longopts_arg_splits_at_first_equals :
  (forall opt,
     ~ In "="%char (list_ascii_of_string (option_key opt))
     /\ match optparse__longopts_arg opt with
        | Some arg => opt = option_key opt +:+ String "=" arg
        | None =>
            opt = option_key opt
            /\ ~ In "="%char (list_ascii_of_string opt)
        end)
  /\ (forall key arg,
        ~ In "="%char (list_ascii_of_string key) ->
        optparse__longopts_arg (key +:+ String "=" arg) = Some arg
        /\ option_key (key +:+ String "=" arg) = key).
Proof.
  split.
  - induction opt as [|c rest [IHk IHa]]; simpl; [tauto|].
    destruct (Ascii.eqb_spec c "=") as [->|Hne]; simpl; [tauto|].
    split; [intros [?|?]; done|].
    destruct (optparse__longopts_arg rest) as [arg|].
    + by rewrite str_app_cons, <- IHa.
    + destruct IHa as [<- Hno]. split; [done|]. intros [?|?]; done.
  - induction key as [|c key IH]; intros arg Hno; [done|].
    rewrite str_app_cons. simpl in *.
    destruct (Ascii.eqb_spec c "=") as [->|Hne]; [tauto|].
    destruct (IH arg) as [-> ->]; [tauto|done].
Qed.

(** ** The shape of a token *)

(** X8: a token is exactly one of: the terminator ["--"], a short-style
    cluster, a long-style token, or a non-option for [optparse_long].
    [optparse] steps over the long-style tokens too.  A token that does
    not start with a dash, the lone dash and the empty token are
    non-options, and the terminator is the token ["--"] itself. *)
Theorem X8_token_classification :
  (forall a,
     let d := optparse__is_dashdash (Some a) in
     let s := optparse__is_shortopt (Some a) in
     let l := optparse__is_longopt (Some a) in
     let n := nonoption_long a in
     (d, s, l, n) = (true, false, false, false)
     \/ (d, s, l, n) = (false, true, false, false)
     \/ (d, s, l, n) = (false, false, true, false)
     \/ (d, s, l, n) = (false, false, false, true))
  /\ (forall a,
        nonoption_short a = optparse__is_longopt (Some a) || nonoption_long a)
  /\ (forall a, char_at a 0 <> "-"%char -> nonoption_long a = true)
  /\ nonoption_long "-" = true
  /\ nonoption_long "" = true
  /\ (forall a,
        no_nul a = true ->
        optparse__is_dashdash (Some a) = true <-> a = "--").
Proof.
  split; [|split; [|split; [|split; [|split]]]].
  - intros a. unfold nonoption_long, optparse__is_dashdash,
      optparse__is_shortopt, optparse__is_longopt. cbv zeta.
    destruct (char_at a 0 =? "-")%char, (char_at a 1 =? "-")%char,
      (char_at a 1 =? NUL)%char eqn:H1, (char_at a 2 =? NUL)%char;
      simpl; auto.
  - intros a. unfold nonoption_short, nonoption_long, optparse__is_dashdash,
      optparse__is_shortopt, optparse__is_longopt.
    destruct (char_at a 0 =? "-")%char, (char_at a 1 =? "-")%char,
      (char_at a 1 =? NUL)%char, (char_at a 2 =? NUL)%char; done.
  - intros a Ha. apply Ascii.eqb_neq in Ha.
    unfold nonoption_long, optparse__is_dashdash,
      optparse__is_shortopt, optparse__is_longopt. by rewrite Ha.
  - done.
  - done.
  - intros a Ha. split; [|by intros ->].
    unfold optparse__is_dashdash, char_at.
    destruct a as [|c0 [|c1 [|c2 a]]]; simpl in *; try done.
    + by rewrite andb_false_r.
    + intros H. apply andb_true_iff in H as [H _].
      apply andb_true_iff in H as [H0 H1].
      apply Ascii.eqb_eq in H0, H1. by subst.
    + intros H. apply andb_true_iff in H as [_ H2].
      rewrite !andb_true_iff in Ha. destruct Ha as (_ & _ & Hc2 & _).
      by rewrite H2 in Hc2.
Qed.


(** ** Long options and their values *)

(** At a long-style token [optparse_long] does what the first entry named
    by the key says, and reports an invalid option when there is none. *)
Lemma optparse_long_at_key o longopts li tok key arg :
  at_long_token o longopts tok key arg ->
  optparse_long o longopts li =
    match first_named key (table_entries longopts) with
    | Some (i, e) =>
        optparse_long_entry e i
          (set_optind (optparse_reset o) (S (optind o))) (str_drop 2 tok) li
    | None =>
        (optparse__error (set_optind (optparse_reset o) (S (optind o)))
           OPTPARSE_MSG_INVALID (str_drop 2 tok), li)
    end.
Proof.
  intros (Htok & Hl & Hn & Ht & -> & _).
  rewrite (optparse_long_at_longopt _ _ _ tok) by done.
  rewrite optparse_long_scan_first; [done|done|].
  by apply no_nul_str_drop.
Qed.

Lemma first_named_name key entries i e :
  first_named key entries = Some (i, e) -> longname e = Some key.
Proof. intros H. by apply list_find_Some in H as (_ & ? & _). Qed.

(** X9: a long-style token whose key names an entry that requires a
    value.  With ["=value"] in the token the value is the argument and
    only this token is consumed (an empty value counts).  Without it the
    next token, whatever it looks like, is the argument and both are
    consumed.  With neither the call returns ['?'] and the message is the
    missing-argument phrase with the first 30 characters of the name.
    In every case [optopt] is the entry's short equivalent and the array
    is as it was. *)
Theorem X9_long_required_value o longopts li tok key arg i e :
  at_long_token o longopts tok key arg ->
  first_named key (table_entries longopts) = Some (i, e) ->
  argtype e = OPTPARSE_REQUIRED ->
  let '(r, o', _) := optparse_long o longopts li in
  optopt o' = shortname e /\ argv o' = argv o
  /\ (forall v, arg = Some v ->
        r = shortname e /\ optarg o' = Some v
        /\ optind o' = S (optind o) /\ errmsg o' = "")
  /\ (forall next, arg = None -> argv o !! S (optind o) = Some next ->
        r = shortname e /\ optarg o' = Some next
        /\ optind o' = S (S (optind o)) /\ errmsg o' = "")
  /\ (arg = None -> argv o !! S (optind o) = None ->
        r = char_lit "?" /\ optarg o' = None
        /\ optind o' = S (optind o)
        /\ errmsg o'
           = "option requires an argument -- '" +:+ substring 0 30 key
             +:+ "'").
Proof.
  intros Hat Hf Hty.
  rewrite (optparse_long_at_key _ _ _ _ _ _ Hat), Hf.
  pose proof (first_named_name _ _ _ _ Hf) as Hname.
  destruct Hat as (_ & _ & _ & _ & _ & ->).
  unfold optparse_long_entry. cbv zeta. rewrite Hty, Hname.
  destruct (optparse__longopts_arg (str_drop 2 tok)) as [v|]; simpl.
  - repeat split; try done; intros; simplify_eq; done.
  - destruct (argv o !! S (optind o)) as [next|] eqn:Hnext; [simpl|].
    + repeat split; try done; intros; simplify_eq; done.
    + error_result. repeat split; try done; intros; simplify_eq.
Qed.

(** X10: a long-style token with ["=value"] whose key names an entry
    that takes no value: the call returns ['?'], the message is the
    too-many-arguments phrase with the first 32 characters of the name,
    the argument is absent, the token is consumed, and [optopt] and the
    index slot still name the entry. *)
Theorem X10_long_value_not_taken o longopts slot tok key v i e :
  at_long_token o longopts tok key (Some v) ->
  first_named key (table_entries longopts) = Some (i, e) ->
  argtype e = OPTPARSE_NONE ->
  let '(r, o', li) := optparse_long o longopts (Some slot) in
  r = char_lit "?"
  /\ errmsg o'
     = "option takes no arguments -- '" +:+ substring 0 32 key +:+ "'"
  /\ optarg o' = None
  /\ optopt o' = shortname e
  /\ li = Some (Z.of_nat i)
  /\ optind o' = S (optind o)
  /\ argv o' = argv o.
Proof.
  intros Hat Hf Hty.
  rewrite (optparse_long_at_key _ _ _ _ _ _ Hat), Hf.
  pose proof (first_named_name _ _ _ _ Hf) as Hname.
  destruct Hat as (_ & _ & _ & _ & _ & Harg).
  unfold optparse_long_entry. cbv zeta. rewrite Hty, Hname, <- Harg.
  error_result. done.
Qed.

(** X11: a long-style token whose key names an entry that does not
    require a value (it takes none, or an optional one).  Without
    ["=value"] the argument is absent and only this token is consumed:
    the token after it is never taken as the value.  With ["=value"] an
    entry with an optional value has the value as its argument. *)
Theorem X11_long_optional_value o longopts li tok key arg i e :
  at_long_token o longopts tok key arg ->
  first_named key (table_entries longopts) = Some (i, e) ->
  let '(r, o', _) := optparse_long o longopts li in
  (argtype e <> OPTPARSE_REQUIRED -> arg = None ->
     r = shortname e /\ optarg o' = None /\ errmsg o' = ""
     /\ optopt o' = shortname e
     /\ optind o' = S (optind o) /\ argv o' = argv o
     /\ unconsumed_args o' = drop (S (optind o)) (argv o))
  /\ (forall v, argtype e = OPTPARSE_OPTIONAL -> arg = Some v ->
        r = shortname e /\ optarg o' = Some v /\ errmsg o' = ""
        /\ optind o' = S (optind o) /\ argv o' = argv o).
Proof.
  intros Hat Hf.
  rewrite (optparse_long_at_key _ _ _ _ _ _ Hat), Hf.
  destruct Hat as (_ & _ & _ & _ & _ & ->).
  unfold optparse_long_entry. cbv zeta.
  destruct (argtype e), (optparse__longopts_arg (str_drop 2 tok)) as [v|];
    simpl; try (split; intros; simplify_eq; fail);
    try (destruct (optparse__error _ _ _) as [r o'];
         split; intros; simplify_eq; fail).
  - split; [|intros; simplify_eq].
    intros _ _. rewrite unconsumed_args_drop. done.
  - destruct (argv o !! S (optind o)); simpl;
      try (destruct (optparse__error _ _ _) as [r o']);
      split; intros; simplify_eq.
  - split; [intros; simplify_eq|]. intros ? _ [= <-]. done.
  - split; [|intros; simplify_eq].
    intros _ _. rewrite unconsumed_args_drop. done.
Qed.

(** X12: a long-style token whose key names no entry of the table: the
    call returns ['?'], and the message is the invalid-option phrase with
    the first 43 characters of the token after its dashes, the
    ["=value"] part included.  The token is consumed, the argument is
    absent, [optopt] is 0 and the index slot is as it was. *)
Theorem X12_long_unknown_name o longopts li tok key arg :
  at_long_token o longopts tok key arg ->
  first_named key (table_entries longopts) = None ->
  let '(r, o', li') := optparse_long o longopts li in
  r = char_lit "?"
  /\ errmsg o'
     = "invalid option -- '" +:+ substring 0 43 (str_drop 2 tok) +:+ "'"
  /\ optarg o' = None /\ optopt o' = 0%Z /\ li' = li
  /\ optind o' = S (optind o) /\ argv o' = argv o.
Proof.
  intros Hat Hf.
  rewrite (optparse_long_at_key _ _ _ _ _ _ Hat), Hf.
  error_result. done.
Qed.


(** ** Short options: unknown flags and clusters of flags *)

(** X13: the first short-style cluster past the non-options the call
    steps over, whose current flag the option string does not have (or is
    [':']): the call returns ['?'], the message is the invalid-option
    phrase with the flag, [optopt] is the flag and the argument is
    absent.  The whole token is consumed, the flags after the unknown one
    with it: the cursor is past this token and [subopt] is 0. *)
Theorem X13_short_unknown_flag o optstring sk tok rest :
  drop (optind o) (argv o) = sk ++ tok :: rest ->
  sk = [] \/ permute o <> 0%Z ->
  Forall (fun t => nonoption_short t = true) sk ->
  optparse__is_shortopt (Some tok) = true ->
  let flag := char_at (str_drop (subopt o + 1) tok) 0 in
  optparse__argtype optstring flag = (-1)%Z ->
  let '(r, o') := optparse o optstring in
  r = char_lit "?"
  /\ errmsg o' = "invalid option -- '" +:+ str_of_char flag +:+ "'"
  /\ optopt o' = char_to_int flag
  /\ optarg o' = None
  /\ subopt o' = 0
  /\ argv o' = take (optind o) (argv o) ++ tok :: sk ++ rest
  /\ optind o' = S (optind o)
  /\ unconsumed_args o' = sk ++ rest.
Proof.
  intros Hd Hp Hs Ht flag Hty.
  destruct (optparse_at_cluster optstring o sk tok rest Hd Hp Hs Ht)
    as (r & o1 & k & Hc & Hi & ->).
  unfold optparse_cluster in Hc. cbv zeta in Hc. simpl subopt in Hc.
  fold flag in Hc. rewrite Hty in Hc.
  rewrite optparse__error_eq in Hc by (unfold errmsg_size; simpl; lia).
  injection Hc as <- <-. simpl in Hi.
  assert (k = 1) as -> by lia.
  assert (optind o <= length (argv o)) as Hle.
  { destruct (decide (optind o <= length (argv o))); [done|].
    rewrite drop_ge in Hd by lia. by destruct sk. }
  unfold errmsg_size. simpl.
  rewrite str_of_char_short by lia. rewrite drop_0.
  repeat split; try done; try lia.
  rewrite unconsumed_args_drop. simpl.
  replace (optind o + 1) with (optind o + length [tok]) by (simpl; lia).
  change (tok :: sk ++ rest) with ([tok] ++ (sk ++ rest)).
  by apply drop_after_block.
Qed.

Lemma char_at_0_cons c s : char_at (String c s) 0 = c.
Proof. done. Qed.

Lemma str_drop_1_cons c s : str_drop 1 (String c s) = s.
Proof. unfold str_drop. simpl. by destruct s. Qed.

Lemma char_at_1_cons c s : char_at (String c s) 1 = char_at s 0.
Proof. done. Qed.

(** X14: a cluster of flags that take no argument is delivered one flag a
    call, left to right.  When the rest of the token at the cursor, from
    the current flag on, is the flags [flags], as many calls as there are
    flags return them in order; afterwards the cursor is one past the
    token, [subopt] is 0, the array is as it was, and [optopt] is the
    last flag. *)
Theorem X14_cluster_of_flags optstring flags : forall o tok,
  argv o !! optind o = Some tok ->
  optparse__is_shortopt (Some tok) = true ->
  str_drop (subopt o + 1) tok = string_of_list_ascii flags ->
  flags <> [] ->
  Forall (fun c => c <> NUL /\ optparse__argtype optstring c = 0%Z) flags ->
  let '(rs, o') := optparse_loop (length flags) o optstring in
  rs = map char_to_int flags
  /\ optind o' = S (optind o) /\ subopt o' = 0
  /\ argv o' = argv o /\ permute o' = permute o
  /\ optarg o' = None /\ errmsg o' = ""
  /\ Some (optopt o') = char_to_int <$> last flags.
Proof.
  induction flags as [|c flags IH]; intros o tok Htok Hs Hfl Hne Hall; [done|].
  apply Forall_cons in Hall as [[Hc Hty] Hall].
  simpl optparse_loop. rewrite (optparse_here_cluster _ _ tok) by done.
  unfold optparse_cluster. cbv zeta. simpl subopt. rewrite Hfl.
  simpl string_of_list_ascii. rewrite char_at_0_cons, Hty, char_at_1_cons.
  destruct flags as [|c' flags].
  - simpl. repeat split.
  - apply Forall_cons in Hall as Hall'. destruct Hall' as [[Hc' _] _].
    simpl string_of_list_ascii. rewrite char_at_0_cons.
    destruct (Ascii.eqb_spec c' NUL) as [|_]; [done|]. simpl negb. cbv iota.
    specialize (IH (set_subopt
                      (set_optopt (optparse_reset o) (char_to_int c))
                      (S (subopt o))) tok).
    simpl argv in IH. simpl optind in IH. simpl subopt in IH.
    simpl permute in IH.
    specialize (IH Htok Hs).
    replace (S (subopt o) + 1) with (subopt o + 1 + 1) in IH by lia.
    rewrite <- str_drop_add, Hfl in IH.
    simpl string_of_list_ascii in IH. rewrite str_drop_1_cons in IH.
    specialize (IH eq_refl ltac:(done) Hall).
    destruct (optparse_loop _ _ _) as [rs o'].
    destruct IH as (-> & ? & ? & ? & ? & ? & ? & ?).
    repeat split; try done.
Qed.


(** ** The index slot and the result *)

Lemma optparse_long_entry_slot e i o opt li :
  (optparse_long_entry e i o opt li).1 = (optparse_long_entry e i o opt None).1
  /\ (optparse_long_entry e i o opt None).2 = None.
Proof.
  unfold optparse_long_entry. cbv zeta.
  destruct (argtype e), (optparse__longopts_arg opt); simpl; try done.
  destruct (argv o !! optind o); done.
Qed.

Lemma optparse_long_scan_slot_free t : forall i o opt li,
  (optparse_long_scan t i o opt li).1 = (optparse_long_scan t i o opt None).1
  /\ (optparse_long_scan t i o opt None).2 = None.
Proof.
  induction t as [|e t IH]; intros i o opt li; [done|].
  unfold optparse_long_scan; fold optparse_long_scan.
  destruct (optparse_longopts_end e); [done|].
  destruct (negb _); [apply IH|apply optparse_long_entry_slot].
Qed.

(** X15: what [optparse_long] returns and the state it leaves do not
    depend on the index slot: they are the same with any slot as with
    none.  Without a slot the call gives none back. *)
Theorem X15_index_slot_is_output_only o longopts longindex :
  (optparse_long o longopts longindex).1 = (optparse_long o longopts None).1
  /\ (optparse_long o longopts None).2 = None.
Proof.
  remember (length (argv o) - optind o) as n eqn:Hn.
  revert o Hn. induction n as [n IH] using lt_wf_ind. intros o Hn.
  rewrite (optparse_long_unfold o longopts longindex),
    (optparse_long_unfold o longopts None).
  destruct (argv o !! optind o) as [tok|] eqn:Htok; [|done].
  apply lookup_lt_Some in Htok.
  destruct (optparse__is_dashdash _); [done|].
  destruct (optparse__is_shortopt _).
  { unfold optparse__long_fallback. cbv zeta.
    by destruct (optparse o _) as [r o']. }
  destruct (negb _); [|apply optparse_long_scan_slot_free].
  destruct (negb _); [|done].
  destruct (IH (length (argv o) - S (optind o)) ltac:(lia)
              (set_optind o (S (optind o))) eq_refl) as [H1 H2].
  destruct (optparse_long (set_optind o (S (optind o))) longopts longindex)
    as [[r o2] li2].
  destruct (optparse_long (set_optind o (S (optind o))) longopts None)
    as [[r' o2'] li2'].
  simpl in *. by simplify_eq.
Qed.

(** ** Progress *)

Lemma char_at_lt s : forall i, char_at s i <> NUL -> i < String.length s.
Proof.
  unfold char_at.
  induction s as [|c s IH]; intros i H; [by destruct i|].
  destruct i as [|i]; simpl in *; [lia|]. apply IH in H. lia.
Qed.

Lemma optparse_cluster_progress o s tok :
  let o1 := (optparse_cluster o s tok).2 in
  optind o < optind o1
  \/ optind o1 = optind o /\ subopt o1 = S (subopt o)
     /\ subopt o + 2 < String.length tok.
Proof.
  unfold optparse_cluster. cbv zeta.
  by_argtype s (char_at (str_drop (subopt o + 1) tok) 0).
  - unfold optparse__error. simpl. auto with lia.
  - destruct (Ascii.eqb_spec (char_at (str_drop (subopt o + 1) tok) 1) NUL)
      as [|Hc]; simpl; [auto with lia|].
    rewrite char_at_str_drop in Hc. apply char_at_lt in Hc.
    right. repeat split; lia.
  - destruct (negb _); simpl; [auto with lia|].
    destruct (argv o !! (optind o + 1)).
    + simpl. auto with lia.
    + unfold optparse__error. simpl. auto with lia.
  - simpl. auto with lia.
Qed.

Lemma token_width_elem tok a :
  tok ∈ a -> String.length tok <= token_width a.
Proof.
  intros H. by apply max_list_elem_of_le, list_elem_of_fmap_2.
Qed.

Lemma token_width_perm a a' : a ≡ₚ a' -> token_width a = token_width a'.
Proof.
  unfold token_width.
  induction 1; rewrite ?fmap_cons; cbn [max_list_with id] in *; lia.
Qed.

Lemma optparse_here_progress s o :
  let r := (optparse_here s o).1 in
  let o1 := (optparse_here s o).2 in
  optind o < optind o1 \/ optind o1 = optind o /\ flag_step o r o1.
Proof.
  unfold optparse_here, flag_step. cbv zeta.
  destruct (argv o !! optind o) as [tok|] eqn:Htok; [|simpl; auto].
  apply list_elem_of_lookup_2, token_width_elem in Htok.
  destruct (optparse__is_dashdash _); [simpl; auto with lia|].
  destruct (negb _); [simpl; auto|].
  destruct (optparse_cluster_progress (optparse_reset o) s tok)
    as [H|(H1 & H2 & H3)]; simpl in *; [auto|].
  right. split; [done|]. right. split; [done|lia].
Qed.

Lemma optparse_long_here_progress t li o :
  let r := (optparse_long_here t li o).1.1 in
  let o1 := (optparse_long_here t li o).1.2 in
  optind o < optind o1 \/ optind o1 = optind o /\ flag_step o r o1.
Proof.
  unfold optparse_long_here, flag_step. cbv zeta.
  destruct (argv o !! optind o) as [tok|] eqn:Htok; [|simpl; auto].
  pose proof Htok as Hw.
  apply list_elem_of_lookup_2, token_width_elem in Hw.
  destruct (optparse__is_dashdash _); [simpl; auto with lia|].
  destruct (optparse__is_shortopt _) eqn:Hs.
  { unfold optparse__long_fallback. cbv zeta.
    rewrite (optparse_here_cluster _ _ tok) by done.
    destruct (optparse_cluster_progress (optparse_reset o)
                (optparse__from_long t) tok) as [H|(H1 & H2 & H3)];
      destruct (optparse_cluster _ _ _) as [r o']; simpl in *; [auto|].
    right. split; [done|]. right. split; [done|lia]. }
  destruct (negb _); [simpl; auto|].
  destruct (optparse_long_scan_frame t 0
              (set_optind (optparse_reset o) (S (optind o)))
              (str_drop 2 tok) li) as (_ & _ & H & _).
  simpl in H. left. lia.
Qed.

Lemma optparse_progress o s :
  optind o < optind (optparse o s).2
  \/ optind (optparse o s).2 = optind o /\ argv (optparse o s).2 = argv o
     /\ flag_step o (optparse o s).1 (optparse o s).2.
Proof.
  destruct (scan_here nonoption_short optparse_here scan_short
              scan_short_unfold
              (fun p o => proj1 (optparse_here_frame p o))
              (fun p o => proj2 (proj2 (optparse_here_frame p o))) s o)
    as (sk & x & r & o1 & k & Hd & _ & _ & _ & Hh & Hi & _ & Ho).
  unfold scan_short in Ho. rewrite Ho.
  pose proof (optparse_here_progress s
                (set_optind o (optind o + length sk))) as Hp.
  rewrite Hh in Hp. unfold flag_step in *. simpl in *.
  destruct Hp as [Hp|[Hp Hq]]; [left; lia|].
  right. assert (k = 0) as -> by lia.
  rewrite take_0, drop_0. simpl. rewrite <- Hd, take_drop.
  split; [lia|done].
Qed.

Lemma optparse_long_progress o t li :
  optind o < optind (optparse_long o t li).1.2
  \/ optind (optparse_long o t li).1.2 = optind o
     /\ argv (optparse_long o t li).1.2 = argv o
     /\ flag_step o (optparse_long o t li).1.1 (optparse_long o t li).1.2.
Proof.
  destruct (scan_here nonoption_long here_long scan_long scan_long_unfold
              (fun p o => proj1 (here_long_frame p o))
              (fun p o => proj2 (proj2 (here_long_frame p o))) (t, li) o)
    as (sk & x & [r li'] & o1 & k & Hd & _ & _ & _ & Hh & Hi & _ & Ho).
  pose proof (optparse_long_here_progress t li
                (set_optind o (optind o + length sk))) as Hp.
  unfold here_long, scan_long, flag_step in *. simpl in *.
  destruct (optparse_long_here _ _ _) as [[r0 o0] l0].
  destruct (optparse_long o t li) as [[r1 o1'] l1].
  simplify_eq. simpl in *.
  destruct Hp as [Hp|[Hp Hq]]; [left; lia|].
  right. assert (k = 0) as -> by lia.
  rewrite take_0, drop_0. simpl. rewrite <- Hd, take_drop.
  split; [lia|done].
Qed.

(** X16: every call of [optparse] and of [optparse_long] makes progress
    or says so.  Either the cursor moves forward; or the array and the
    cursor are as they were and the call has stepped to the next flag of
    a cluster ([subopt] one more) or has returned -1.  So a call that
    does not return -1 has consumed a token or a flag. *)
Theorem X16_calls_make_progress :
  let progress o r o' :=
    optind o < optind o'
    \/ optind o' = optind o /\ argv o' = argv o
       /\ (subopt o' = S (subopt o) \/ r = (-1)%Z) in
  (forall o optstring,
     progress o (optparse o optstring).1 (optparse o optstring).2)
  /\ (forall o longopts longindex,
        progress o (optparse_long o longopts longindex).1.1
          (optparse_long o longopts longindex).1.2).
Proof.
  cbv zeta. split.
  - intros o s.
    destruct (optparse_progress o s) as [H|(H1 & H2 & [H3|[H3 _]])]; auto.
  - intros o t li.
    destruct (optparse_long_progress o t li)
      as [H|(H1 & H2 & [H3|[H3 _]])]; auto.
Qed.

(** ** Termination of the parsing loops *)

Lemma calls_bound_decreases o r o' :
  optind o < optind o'
  \/ optind o' = optind o /\ argv o' = argv o /\ flag_step o r o' ->
  argv o' ≡ₚ argv o ->
  optind o' <= length (argv o') ->
  r = (-1)%Z \/ calls_bound o' < calls_bound o.
Proof.
  intros Hp Hperm Hle. unfold calls_bound.
  rewrite (token_width_perm _ _ Hperm).
  pose proof (Permutation_length Hperm) as Hl. rewrite Hl in *.
  destruct Hp as [Hp|(Hi & Ha & [Hr|[Hs Hw]])]; [|by left|].
  - right.
    assert (S (length (argv o) - optind o') <= length (argv o) - optind o)
      as Hlt by lia.
    apply (Nat.mul_le_mono_r _ _ (S (token_width (argv o)))) in Hlt.
    simpl in Hlt. lia.
  - right. rewrite Hi, Hs. lia.
Qed.

Lemma optparse_loop_ends s : forall n o,
  calls_bound o < n ->
  optind o <= length (argv o) ->
  (-1)%Z ∈ (optparse_loop n o s).1.
Proof.
  induction n as [|n IH]; intros o Hn Hle; [lia|].
  simpl optparse_loop.
  pose proof (optparse_progress o s) as Hp.
  destruct (optparse_moves s o) as (sk & c & r0 & Hd & _ & Ha & Hi & _).
  destruct (block_move_facts _ _ _ _ _ _ _ Hd Ha Hi)
    as (Hperm & _ & _ & _ & Hin).
  destruct (optparse o s) as [r o1] eqn:Ho. simpl in *.
  destruct (calls_bound_decreases o r o1 Hp Hperm (Hin Hle)) as [->|Hlt].
  - destruct (optparse_loop n o1 s). simpl. by left.
  - specialize (IH o1 ltac:(lia) (Hin Hle)).
    destruct (optparse_loop n o1 s). simpl in *. by right.
Qed.

Lemma optparse_long_loop_ends t : forall n o li,
  calls_bound o < n ->
  optind o <= length (argv o) ->
  (-1)%Z ∈ (optparse_long_loop n o t li).1.
Proof.
  induction n as [|n IH]; intros o li Hn Hle; [lia|].
  simpl optparse_long_loop.
  pose proof (optparse_long_progress o t li) as Hp.
  destruct (optparse_long_moves t li o)
    as (sk & c & r0 & Hd & _ & Ha & Hi & _).
  destruct (block_move_facts _ _ _ _ _ _ _ Hd Ha Hi)
    as (Hperm & _ & _ & _ & Hin).
  destruct (optparse_long o t li) as [[r o1] li1] eqn:Ho. simpl in *.
  destruct (calls_bound_decreases o r o1 Hp Hperm (Hin Hle)) as [->|Hlt].
  - destruct (optparse_long_loop n o1 t li1). simpl. by left.
  - specialize (IH o1 li1 ltac:(lia) (Hin Hle)).
    destruct (optparse_long_loop n o1 t li1). simpl in *. by right.
Qed.

(** X17: a parsing loop ends.  From a state whose cursor is within the
    array, among the first [calls_bound o + 1] calls of [optparse] in a
    row one returns -1, whatever the tokens and the option string; and
    the same for [optparse_long] with any table. *)
Theorem X17_parsing_loops_end o optstring longopts longindex :
  optind o <= length (argv o) ->
  (-1)%Z ∈ (optparse_loop (S (calls_bound o)) o optstring).1
  /\ (-1)%Z ∈
     (optparse_long_loop (S (calls_bound o)) o longopts longindex).1.
Proof.
  intros Hle. split.
  - apply optparse_loop_ends; [lia|done].
  - apply optparse_long_loop_ends; [lia|done].
Qed.

End Platform.

(** * Instances *)

(** C2, as stated, fails for a sequence that uses both scanners: over
    [prog --x -a], [optparse] steps over ["--x"], which is no short
    option, and consumes ["-a"]; [optparse_long] then consumes ["--x"].
    Both tokens were consumed as options, and the array holds them in the
    other order. *)
Lemma C2_mixed_scanners_counterexample :
  let o0 := optparse_init blank ["prog"; "--x"; "-a"] in
  let table :=
    [mk_long (Some "x") (char_lit "x") OPTPARSE_NONE;
     mk_long None 0 OPTPARSE_NONE] in
  let cs := [NextShort "a"; NextLong table None] in
  let fails char_signed :=
    permute o0 <> 0%Z
    /\ (optparse char_signed o0 "a").1 = char_lit "a"
    /\ (optparse_long char_signed (optparse char_signed o0 "a").2
          table None).1.1 = char_lit "x"
    /\ argv (run_calls char_signed cs o0) = ["prog"; "-a"; "--x"]
    /\ optind (run_calls char_signed cs o0) = 3
    /\ ~ stable_partition o0 (run_calls char_signed cs o0) in
  fails true /\ fails false.
Proof.
  assert (forall o', argv o' = ["prog"; "-a"; "--x"] -> optind o' = 3 ->
            ~ stable_partition
                (optparse_init blank ["prog"; "--x"; "-a"]) o') as Hno.
  { intros o' Ha Hi (C & K & M & rest & H1 & H2 & H3 & H4).
    rewrite Ha in H3. rewrite Hi in H4. simpl in H1, H3, H4.
    destruct C as [|c1 [|c2 [|c3 C]]]; simpl in H4; try lia.
    injection H3 as <- <- H3. symmetry in H3.
    apply app_eq_nil in H3 as [-> ->]. rewrite app_nil_r in H1. subst M.
    inversion H2. }
  split; (split; [done|]; split; [reflexivity|]; split; [reflexivity|];
          split; [reflexivity|]; split; [reflexivity|];
          apply Hno; reflexivity).
Qed.

(** C7, as stated, fails when the delegated call signals a missing
    argument: over [prog -d] with the table of the tests, [optparse]
    returns ['?'] for the synthesized specification, and the slot of
    [optparse_long] receives 3, the index of [delay], not -1. *)
Lemma C7_missing_argument_counterexample :
  let o := optparse_init blank ["prog"; "-d"] in
  let fails char_signed :=
    optparse__is_shortopt (argv o !! optind o) = true
    /\ optparse__from_long kLongopts = "abc::d:ef:"
    /\ (optparse char_signed o "abc::d:ef:").1 = char_lit "?"
    /\ errmsg (optparse char_signed o "abc::d:ef:").2
       = "option requires an argument -- 'd'"
    /\ (optparse_long char_signed o kLongopts (Some (-1)%Z)).1.1
       = char_lit "?"
    /\ (optparse_long char_signed o kLongopts (Some (-1)%Z)).2 = Some 3%Z in
  fails true /\ fails false.
Proof. vm_compute. repeat split. Qed.

(** C3 at [prog -d 10] with specification ["d::"]: the flag has no
    argument and ["10"] is the next positional. *)
Lemma C3_short_optional_value_witness :
  let o := optparse_init blank ["prog"; "-d"; "10"] in
  (drop (optind o) (argv o) = [] ++ "-d" :: ["10"]
   /\ optparse__is_shortopt (Some "-d") = true
   /\ optparse__argtype "d::" (char_at "-d" (subopt o + 1)) = 2%Z)
  /\ (optparse true o "d::").1 = char_lit "d"
  /\ optarg (optparse true o "d::").2 = None
  /\ unconsumed_args (optparse true o "d::").2 = ["10"]
  /\ (optparse_arg (optparse true o "d::").2).1 = Some "10".
Proof.
  intros o.
  pose proof (C3_short_optional_value true o "d::" [] "-d" ["10"]
                eq_refl (or_introl eq_refl) (List.Forall_nil _) eq_refl eq_refl)
    as H.
  cbv zeta in H. destruct (optparse true o "d::") as [r o'].
  destruct H as (H1 & H2 & H3 & H4 & H5 & H6 & H7).
  split; [repeat split|]. split; [exact H1|].
  split; [apply H3; reflexivity|]. split; [exact H6|].
  apply H7. reflexivity.
Defined.

(** C4 at [prog -c red] and at [prog -c] with specification ["c:"]: the
    next token is the argument, and without one the call reports the
    missing argument. *)
Lemma C4_short_required_value_witness :
  let o := optparse_init blank ["prog"; "-c"; "red"] in
  let o2 := optparse_init blank ["prog"; "-c"] in
  (drop (optind o) (argv o) = [] ++ "-c" :: ["red"]
   /\ drop (optind o2) (argv o2) = [] ++ "-c" :: []
   /\ optparse__is_shortopt (Some "-c") = true
   /\ optparse__argtype "c:" (char_at "-c" (subopt o + 1)) = 1%Z)
  /\ (optparse true o "c:").1 = char_lit "c"
  /\ optarg (optparse true o "c:").2 = Some "red"
  /\ optind (optparse true o "c:").2 = 3
  /\ (optparse true o2 "c:").1 = char_lit "?"
  /\ errmsg (optparse true o2 "c:").2 = "option requires an argument -- 'c'"
  /\ optarg (optparse true o2 "c:").2 = None.
Proof.
  intros o o2.
  pose proof (C4_short_required_value true o "c:" [] "-c" ["red"]
                eq_refl (or_introl eq_refl) (List.Forall_nil _) eq_refl eq_refl)
    as H.
  pose proof (C4_short_required_value true o2 "c:" [] "-c" []
                eq_refl (or_introl eq_refl) (List.Forall_nil _) eq_refl eq_refl)
    as H2.
  cbv zeta in H, H2.
  destruct (optparse true o "c:") as [r o'].
  destruct (optparse true o2 "c:") as [r2 o2'].
  destruct H as (_ & H & _). destruct H2 as (_ & _ & H2).
  destruct (H eq_refl "red" [] eq_refl) as (Ha & Hb & Hc & _).
  destruct (H2 eq_refl eq_refl) as (Hd & He & Hf & _).
  split; [repeat split|]. split; [exact Ha|]. split; [exact Hb|].
  split; [exact Hc|]. split; [exact Hd|]. split; [exact He|]. exact Hf.
Defined.

(** C7 at [prog -a] and at [prog -d] with the table of the tests: the
    slot receives 0, the index of [amend], and 3, the index of [delay]. *)
Lemma C7_long_fallback_index_witness :
  let o := optparse_init blank ["prog"; "-a"] in
  let o2 := optparse_init blank ["prog"; "-d"] in
  (argv o !! optind o = Some "-a"
   /\ argv o2 !! optind o2 = Some "-d"
   /\ optparse__is_shortopt (Some "-a") = true
   /\ optparse__is_shortopt (Some "-d") = true)
  /\ (optparse_long true o kLongopts (Some 99%Z)).1.1 = char_lit "a"
  /\ (optparse_long true o kLongopts (Some 99%Z)).2 = Some 0%Z
  /\ (optparse_long true o2 kLongopts (Some 99%Z)).2 = Some 3%Z.
Proof.
  intros o o2.
  pose proof (C7_long_fallback_index true o kLongopts 99 "-a"
                eq_refl eq_refl) as H.
  pose proof (C7_long_fallback_index true o2 kLongopts 99 "-d"
                eq_refl eq_refl) as H2.
  destruct (optparse_long true o kLongopts (Some 99%Z)) as [[r o'] li].
  destruct (optparse_long true o2 kLongopts (Some 99%Z)) as [[r2 o2'] li2].
  destruct H as (Ha & Hb & _). destruct H2 as (Ha2 & Hb2 & _).
  split; [repeat split|].
  assert (r = char_lit "a" /\ optopt o' = char_lit "a") as [Hr Ho]
    by (injection Ha as -> ->; split; reflexivity).
  assert (optopt o2' = char_lit "d") as Ho2
    by (injection Ha2 as _ ->; reflexivity).
  rewrite Ho in Hb. rewrite Ho2 in Hb2.
  split; [exact Hr|]. split; [exact Hb|]. exact Hb2.
Defined.

(** C9 at [prog -- -x]: both scanners return -1 and ["-x"] is the one
    positional left. *)
Lemma C9_double_dash_terminates_witness :
  let o := optparse_init blank ["prog"; "--"; "-x"] in
  argv o !! optind o = Some "--"
  /\ (optparse true o "x").1 = (-1)%Z
  /\ (optparse_long true o kLongopts None).1.1 = (-1)%Z
  /\ unconsumed_args (optparse true o "x").2 = ["-x"]
  /\ unconsumed_args (optparse_long true o kLongopts None).1.2 = ["-x"].
Proof.
  intros o.
  destruct (C9_double_dash_terminates true o "x" kLongopts None eq_refl)
    as (H1 & H2 & H3 & H4).
  split; [reflexivity|]. rewrite H3, H4. rewrite H1, H2.
  repeat split.
Defined.

(** C2 at [prog positional1 --flag positional2] with two calls of
    [optparse_long]. *)
Lemma C2_permutation_keeps_order_witness :
  let o :=
    optparse_init blank ["prog"; "positional1"; "--flag"; "positional2"] in
  let table :=
    [mk_long (Some "flag") (char_lit "f") OPTPARSE_NONE;
     mk_long None 0 OPTPARSE_NONE] in
  let cs := [NextLong table None; NextLong table None] in
  (permute o <> 0%Z /\ same_scanner cs = true)
  /\ stable_partition o (run_calls true cs o).
Proof.
  intros o table cs.
  assert (permute o <> 0%Z) as Hp by (intros H; discriminate H).
  split; [split; [exact Hp|reflexivity]|].
  exact (proj1 (C2_permutation_keeps_order true) cs o Hp eq_refl).
Defined.

(** C5 at [prog --color=red] with the table of the tests. *)
Lemma C5_long_exact_match_witness :
  let o := optparse_init blank ["prog"; "--color=red"] in
  (argv o !! optind o = Some "--color=red"
   /\ optparse__is_longopt (Some "--color=red") = true
   /\ no_nul "--color=red" = true
   /\ first_named "color" (table_entries kLongopts)
      = Some (2, mk_long (Some "color") (char_lit "c") OPTPARSE_OPTIONAL))
  /\ optparse_long true o kLongopts (Some 0%Z)
     = optparse_long_entry
         (mk_long (Some "color") (char_lit "c") OPTPARSE_OPTIONAL) 2
         (set_optind (optparse_reset o) 2) "color=red" (Some 0%Z).
Proof.
  intros o. split; [repeat split|].
  refine (proj1 (proj2 (C5_long_exact_match true)) o kLongopts (Some 0%Z)
            "--color=red" eq_refl eq_refl eq_refl _).
  repeat constructor; intros n [= <-]; reflexivity.
Defined.

(** C10 at [prog --colorful] with the table of the tests: no entry
    matches and the slot keeps its 7. *)
Lemma C10_longindex_frame_witness :
  let o := optparse_init blank ["prog"; "--colorful"] in
  (argv o !! optind o = Some "--colorful"
   /\ optparse__is_longopt (Some "--colorful") = true)
  /\ (optparse_long true o kLongopts (Some 7%Z)).1.1 = char_lit "?"
  /\ (optparse_long true o kLongopts (Some 7%Z)).2 = Some 7%Z.
Proof.
  intros o. split; [repeat split|].
  refine (proj1 (proj2 (proj2 (proj2 (C10_longindex_frame true)))) o kLongopts
            (Some 7%Z) "--colorful" eq_refl eq_refl _).
  repeat constructor.
Defined.


(** ** Instances of the further properties *)

(** X2 at [prog foo -a bar] with the cursor past [-a]: [foo] goes behind
    [-a]. *)
Lemma X2_permute_rotates_one_token_witness :
  let o := mk_optparse ["prog"; "foo"; "-a"; "bar"] 1 3 0 None "" 0 in
  argv (optparse__permute o 1) = ["prog"; "-a"; "foo"; "bar"]
  /\ argv (optparse__permute o 1) !! 2 = Some "foo".
Proof.
  intros o.
  pose proof (X2_permute_rotates_one_token o 1 ["prog"] "foo" ["-a"] ["bar"]
                eq_refl eq_refl eq_refl) as H.
  cbv zeta in H. destruct H as (Ha & Hb & _). split; [exact Ha|exact Hb].
Defined.

(** X3 at [prog foo bar]: both scanners are done at once. *)
Lemma X3_only_non_options_left_witness :
  let o := optparse_init blank ["prog"; "foo"; "bar"] in
  optparse true o "ab" = ((-1)%Z, optparse_reset o)
  /\ optparse_long true o kLongopts None = ((-1)%Z, o, None).
Proof.
  intros o. split.
  - refine (proj1 (proj1 (X3_only_non_options_left true) o "ab" _)).
    repeat constructor.
  - refine (proj2 (X3_only_non_options_left true) o kLongopts None _).
    repeat constructor.
Defined.

(** X4 at [prog foo -a] in strict mode. *)
Lemma X4_strict_mode_keeps_array_witness :
  let o := set_permute (optparse_init blank ["prog"; "foo"; "-a"]) 0 in
  permute o = 0%Z
  /\ argv (optparse true o "a").2 = ["prog"; "foo"; "-a"]
  /\ argv (optparse_long true o kLongopts None).1.2 = ["prog"; "foo"; "-a"].
Proof.
  intros o. split; [reflexivity|].
  exact (X4_strict_mode_keeps_array true o "a" kLongopts None eq_refl).
Defined.

(** X6 with the table of the tests: [d] requires a value. *)
Lemma X6_from_long_keeps_argument_kinds_witness :
  optparse__argtype (optparse__from_long kLongopts) "d" = 1%Z.
Proof.
  refine (proj1 (X6_from_long_keeps_argument_kinds true) kLongopts
            (char_lit "d") 3
            (mk_long (Some "delay") (char_lit "d") OPTPARSE_REQUIRED)
            _ _ eq_refl).
  - repeat constructor; discriminate.
  - split; reflexivity.
Defined.

(** X9 at [prog --delay=5 x] with the table of the tests. *)
Lemma X9_long_required_value_witness :
  let o := optparse_init blank ["prog"; "--delay=5"; "x"] in
  at_long_token o kLongopts "--delay=5" "delay" (Some "5")
  /\ (optparse_long true o kLongopts None).1.1 = char_lit "d"
  /\ optarg (optparse_long true o kLongopts None).1.2 = Some "5"
  /\ optind (optparse_long true o kLongopts None).1.2 = 2.
Proof.
  intros o.
  assert (at_long_token o kLongopts "--delay=5" "delay" (Some "5")) as Hat.
  { refine (conj eq_refl (conj eq_refl (conj eq_refl
             (conj _ (conj eq_refl eq_refl))))).
    repeat constructor; intros n [= <-]; reflexivity. }
  split; [exact Hat|].
  pose proof (X9_long_required_value true o kLongopts None "--delay=5"
                "delay" (Some "5") 3
                (mk_long (Some "delay") (char_lit "d") OPTPARSE_REQUIRED)
                Hat eq_refl eq_refl) as H.
  destruct (optparse_long true o kLongopts None) as [[r o'] li].
  destruct H as (_ & _ & H & _).
  destruct (H "5" eq_refl) as (Ha & Hb & Hc & _).
  split; [exact Ha|]. split; [exact Hb|exact Hc].
Defined.

(** X10 at [prog --amend=1] with the table of the tests. *)
Lemma X10_long_value_not_taken_witness :
  let o := optparse_init blank ["prog"; "--amend=1"] in
  at_long_token o kLongopts "--amend=1" "amend" (Some "1")
  /\ (optparse_long true o kLongopts (Some 9%Z)).1.1 = char_lit "?"
  /\ errmsg (optparse_long true o kLongopts (Some 9%Z)).1.2
     = "option takes no arguments -- 'amend'"
  /\ (optparse_long true o kLongopts (Some 9%Z)).2 = Some 0%Z.
Proof.
  intros o.
  assert (at_long_token o kLongopts "--amend=1" "amend" (Some "1")) as Hat.
  { refine (conj eq_refl (conj eq_refl (conj eq_refl
             (conj _ (conj eq_refl eq_refl))))).
    repeat constructor; intros n [= <-]; reflexivity. }
  split; [exact Hat|].
  pose proof (X10_long_value_not_taken true o kLongopts 9%Z "--amend=1"
                "amend" "1" 0
                (mk_long (Some "amend") (char_lit "a") OPTPARSE_NONE)
                Hat eq_refl eq_refl) as H.
  destruct (optparse_long true o kLongopts (Some 9%Z)) as [[r o'] li].
  destruct H as (Ha & Hb & _ & _ & Hc & _).
  split; [exact Ha|]. split; [exact Hb|exact Hc].
Defined.

(** X11 at [prog --color red] with the table of the tests: [red] is not
    taken as the value. *)
Lemma X11_long_optional_value_witness :
  let o := optparse_init blank ["prog"; "--color"; "red"] in
  at_long_token o kLongopts "--color" "color" None
  /\ (optparse_long true o kLongopts None).1.1 = char_lit "c"
  /\ optarg (optparse_long true o kLongopts None).1.2 = None
  /\ unconsumed_args (optparse_long true o kLongopts None).1.2 = ["red"].
Proof.
  intros o.
  assert (at_long_token o kLongopts "--color" "color" None) as Hat.
  { refine (conj eq_refl (conj eq_refl (conj eq_refl
             (conj _ (conj eq_refl eq_refl))))).
    repeat constructor; intros n [= <-]; reflexivity. }
  split; [exact Hat|].
  pose proof (X11_long_optional_value true o kLongopts None "--color"
                "color" None 2
                (mk_long (Some "color") (char_lit "c") OPTPARSE_OPTIONAL)
                Hat eq_refl) as H.
  destruct (optparse_long true o kLongopts None) as [[r o'] li].
  destruct H as (H & _).
  destruct (H ltac:(discriminate) eq_refl) as (Ha & Hb & _ & _ & _ & _ & Hc).
  split; [exact Ha|]. split; [exact Hb|exact Hc].
Defined.

(** X12 at [prog --colour=red] with the table of the tests. *)
Lemma X12_long_unknown_name_witness :
  let o := optparse_init blank ["prog"; "--colour=red"] in
  at_long_token o kLongopts "--colour=red" "colour" (Some "red")
  /\ (optparse_long true o kLongopts None).1.1 = char_lit "?"
  /\ errmsg (optparse_long true o kLongopts None).1.2
     = "invalid option -- 'colour=red'".
Proof.
  intros o.
  assert (at_long_token o kLongopts "--colour=red" "colour" (Some "red"))
    as Hat.
  { refine (conj eq_refl (conj eq_refl (conj eq_refl
             (conj _ (conj eq_refl eq_refl))))).
    repeat constructor; intros n [= <-]; reflexivity. }
  split; [exact Hat|].
  pose proof (X12_long_unknown_name true o kLongopts None "--colour=red"
                "colour" (Some "red") Hat eq_refl) as H.
  destruct (optparse_long true o kLongopts None) as [[r o'] li].
  destruct H as (Ha & Hb & _).
  split; [exact Ha|exact Hb].
Defined.

(** X13 at [prog foo -xa]: [x] is unknown and [a] goes with it. *)
Lemma X13_short_unknown_flag_witness :
  let o := optparse_init blank ["prog"; "foo"; "-xa"] in
  (optparse true o "a").1 = char_lit "?"
  /\ errmsg (optparse true o "a").2 = "invalid option -- 'x'"
  /\ argv (optparse true o "a").2 = ["prog"; "-xa"; "foo"]
  /\ unconsumed_args (optparse true o "a").2 = ["foo"].
Proof.
  intros o.
  assert (drop (optind o) (argv o) = ["foo"] ++ "-xa" :: []) as Hd0
    by reflexivity.
  assert (["foo"] = [] \/ permute o <> 0%Z) as Hp by (right; discriminate).
  assert (Forall (fun t => nonoption_short t = true) ["foo"]) as Hs
    by (repeat constructor).
  assert (optparse__is_shortopt (Some "-xa") = true) as Ht by reflexivity.
  assert (optparse__argtype "a" (char_at (str_drop (subopt o + 1) "-xa") 0)
          = (-1)%Z) as Hty by (vm_compute; reflexivity).
  pose proof (X13_short_unknown_flag true o "a" ["foo"] "-xa" []
                Hd0 Hp Hs Ht Hty) as H.
  destruct (optparse true o "a") as [r o'].
  destruct H as (Ha & Hb & _ & _ & _ & Hc & _ & Hd).
  split; [exact Ha|]. split; [exact Hb|]. split; [exact Hc|exact Hd].
Defined.

(** X14 at [prog -abc]: three calls return [a], [b] and [c]. *)
Lemma X14_cluster_of_flags_witness :
  let o := optparse_init blank ["prog"; "-abc"] in
  (optparse_loop true 3 o "abc").1
  = [char_lit "a"; char_lit "b"; char_lit "c"]
  /\ optind (optparse_loop true 3 o "abc").2 = 2.
Proof.
  intros o.
  assert (Forall (fun c => c <> NUL /\ optparse__argtype "abc" c = 0%Z)
            ["a"; "b"; "c"]%char) as Hall
    by (repeat constructor; discriminate).
  pose proof (X14_cluster_of_flags true "abc" ["a"; "b"; "c"]%char o "-abc"
                eq_refl eq_refl eq_refl ltac:(discriminate) Hall) as H.
  change (length ["a"; "b"; "c"]%char) with 3 in H.
  destruct (optparse_loop true 3 o "abc") as [rs o'].
  destruct H as (Ha & Hb & _).
  split; [exact Ha|exact Hb].
Defined.


(** X17 at [prog -ab x]: a loop of either scanner ends within 15
    calls. *)
Lemma X17_parsing_loops_end_witness :
  let o := optparse_init blank ["prog"; "-ab"; "x"] in
  optind o <= length (argv o)
  /\ calls_bound o = 14
  /\ (-1)%Z ∈ (optparse_loop true 15 o "ab").1
  /\ (-1)%Z ∈ (optparse_long_loop true 15 o kLongopts None).1.
Proof.
  intros o.
  assert (optind o <= length (argv o)) as Hle by (simpl; lia).
  split; [exact Hle|]. split; [reflexivity|].
  exact (X17_parsing_loops_end true o "ab" kLongopts None Hle).
Defined.


(** A flag that [optparse] rejects for the synthesized specification
    can still have its entry reported.  A short equivalent of 127 is left
    out of the specification, and the colon is never a flag, so either
    flag is an invalid option; the slot receives the index of its entry
    all the same. *)
Lemma fallback_indexes_unlisted_flag :
  let table c :=
    [mk_long (Some "amend") (char_lit "a") OPTPARSE_NONE;
     mk_long (Some "other") c OPTPARSE_NONE;
     mk_long None 0 OPTPARSE_NONE] in
  let o c :=
    optparse_init blank ["prog"; String "-" (String (char_of_int c) "")] in
  let reports char_signed c spec :=
    optparse__from_long (table c) = spec
    /\ (optparse char_signed (o c) spec).1 = char_lit "?"
    /\ (optparse_long char_signed (o c) (table c) (Some 7%Z)).1.1
       = char_lit "?"
    /\ (optparse_long char_signed (o c) (table c) (Some 7%Z)).2
       = Some 1%Z in
  reports true 127%Z "a" /\ reports false 127%Z "a"
  /\ reports true (char_lit ":") "a:" /\ reports false (char_lit ":") "a:".
Proof. vm_compute. repeat split. Qed.
